(** * nzb-tools: segmented byte-range retrieval

    A shallow embedding of the core of the [get] command: the yEnc line
    decoder ([decodeYEncLine]), the NNTP client ([NNTPClient] with [Auth],
    [Request], [Body], [Quit]), the range validation and segment planning of
    [getCmd] and its assembly loop.

    Go [int64] values are integers of [Z] with the wrap-around written out
    ([wrap64]); Go strings are [string] (sequences of 8-bit characters) and
    [[]byte] is [list byte]; a Go [error] result is a sum whose left side is
    the error.

    Around this core the file also embeds [Post], the server checks of
    [validateCmd] and [checkCmd] with [DialNNTP] and [Config.Server], the
    reading of the servers from an environment map ([configFromEnvMap],
    [serverFromMap]) and the two escaping helpers [urlSafe] and
    [escapeXml]. *)

From Stdlib Require Import ZArith List Bool Lia Arith.
From Stdlib.Strings Require Import String Ascii Byte.
From Stdlib Require Import DecimalString.
Import ListNotations.

Open Scope Z_scope.

(** ** Machine integers *)

Module Int64.

Definition min_int : Z := - 2 ^ 63.
Definition max_int : Z := 2 ^ 63 - 1.

(** Two's complement reduction of a mathematical integer to [int64]. *)
Definition wrap64 (z : Z) : Z := (z + 2 ^ 63) mod 2 ^ 64 - 2 ^ 63.

Definition add (a b : Z) : Z := wrap64 (a + b).
Definition sub (a b : Z) : Z := wrap64 (a - b).

Definition in_range (z : Z) : Prop := min_int <= z <= max_int.

End Int64.

Notation "a +64 b" := (Int64.add a b) (at level 50, left associativity).
Notation "a -64 b" := (Int64.sub a b) (at level 50, left associativity).

(** ** Errors

    The error values the modelled code creates or passes on.  The
    constructors carry what the Go error message is formatted from. *)

Inductive ioerr : Type :=
| ErrClosed          (* net.ErrClosed: use of closed network connection *)
| ErrTimeout         (* read deadline exceeded *)
| ErrEOF             (* io.EOF *)
| ErrUnexpectedEOF.  (* io.ErrUnexpectedEOF *)

Inductive error : Type :=
| MalformedEscape                     (* "unterminated escape in yEnc line" *)
| RangeOutOfBounds (s e size : Z)     (* "invalid range %d-%d for file size %d" *)
| AuthRejected (line : string)        (* "auth failed: %s" *)
| AuthProtocolError (line : string)   (* "auth unexpected response: %s" *)
| FetchBody (id : string) (e : ioerr) (* "fetch body %s: %w" *)
| IOError (e : ioerr).

Definition result (A : Type) : Type := (error + A)%type.

(** ** LineCodec: [decodeYEncLine] *)

Module YEnc.

Definition int_of_byte (b : byte) : Z := Z.of_N (Byte.to_N b).

(** Go's [byte(v)] conversion of an [int]: the low eight bits. *)
Definition byte_of_int (v : Z) : byte :=
  match Byte.of_N (Z.to_N (v mod 256)) with
  | Some b => b
  | None => x00
  end.

(** The escape marker ['=']. *)
Definition esc : byte := x3d.

Definition unescape (n : byte) : byte :=
  byte_of_int (Z.land (int_of_byte n - 64 - 42) 255).

Definition unshift (c : byte) : byte :=
  byte_of_int (Z.land (int_of_byte c - 42) 255).

(** The scanning loop of [decodeYEncLine]: [line] is what is left from
    index [i] on, [out] the bytes appended so far. *)
Fixpoint decodeLoop (line out : list byte) : result (list byte) :=
  match line with
  | [] => inr out
  | c :: rest =>
      if Byte.eqb c esc then
        match rest with
        | [] => inl MalformedEscape
        | n :: rest' => decodeLoop rest' (out ++ [unescape n])
        end
      else decodeLoop rest (out ++ [unshift c])
  end.

Definition decodeYEncLine (line : list byte) : result (list byte) :=
  match line with
  | [] => inr []
  | _ => decodeLoop line []
  end.

(** Modelled from the spec: the encoder is not part of the repository (the
    tests build their encoded vectors inline).  It is the mirror transform
    of section 6: byte [b] is sent as [(b + 42) mod 256], and when that
    value is the escape marker or one of the protocol-sensitive values
    ([critical], which the spec leaves open) as the marker followed by
    [(b + 42 + 64) mod 256]. *)
Definition encode_byte (critical : byte -> bool) (b : byte) : list byte :=
  let e := byte_of_int ((int_of_byte b + 42) mod 256) in
  if Byte.eqb e esc || critical e
  then [esc; byte_of_int ((int_of_byte b + 42 + 64) mod 256)]
  else [e].

Definition encode_line (critical : byte -> bool) (raw : list byte) : list byte :=
  flat_map (encode_byte critical) raw.

(** The usual yEnc choice of protocol-sensitive values: NUL, LF, CR. *)
Definition yenc_critical (e : byte) : bool :=
  Byte.eqb e x00 || Byte.eqb e x0a || Byte.eqb e x0d.

(** Length of the maximal run of escape markers that ends the line. *)
Fixpoint trailingEsc (l : list byte) : nat :=
  match l with
  | [] => 0
  | c :: r =>
      if Byte.eqb c esc && (trailingEsc r =? List.length r)%nat
      then S (trailingEsc r)
      else trailingEsc r
  end.

(** The line ends in an escape marker. *)
Definition endsInEsc (pre : list byte) : Prop := exists p, pre = p ++ [esc].

End YEnc.

(** ** The Go string functions the code calls *)

Module GoStrings.

Local Open Scope nat_scope.
Local Open Scope string_scope.

Definition str_of_codes (l : list nat) : string :=
  fold_right (fun n s => String (ascii_of_nat n) s) EmptyString l.

(** The double quote character as a string. *)
Definition quote : string := str_of_codes [34].

Fixpoint rev_string (s acc : string) : string :=
  match s with
  | EmptyString => acc
  | String a r => rev_string r (String a acc)
  end.

(** [strings.HasPrefix s p]. *)
Definition HasPrefix (s p : string) : bool := String.prefix p s.

(** [s[1:]] of a string known to be non-empty. *)
Definition tail (s : string) : string :=
  match s with
  | EmptyString => EmptyString
  | String _ r => r
  end.

(** [strings.SplitN s " " 2]: the text before the first space and, when
    there is a space, the text after it. *)
Fixpoint cutSpace (s : string) : string * option string :=
  match s with
  | EmptyString => (EmptyString, None)
  | String a r =>
      if Ascii.eqb a " " then (EmptyString, Some r)
      else let '(h, t) := cutSpace r in (String a h, t)
  end.

Definition SplitN2 (s : string) : list string :=
  match cutSpace s with
  | (h, Some t) => [h; t]
  | (h, None) => [h]
  end.

(** The UTF-8 encodings of the runes for which [unicode.IsSpace] holds:
    tab, LF, VT, FF, CR, space, U+0085, U+00A0, U+1680, U+2000 to U+200A,
    U+2028, U+2029, U+202F, U+205F and U+3000. *)
Definition spaces : list string :=
  map str_of_codes
    ([[9]; [10]; [11]; [12]; [13]; [32]; [194; 133]; [194; 160];
      [225; 154; 128]]
     ++ map (fun k => [226; 128; 128 + k]) (seq 0 11)
     ++ [[226; 128; 168]; [226; 128; 169]; [226; 128; 175];
         [226; 129; 159]; [227; 128; 128]])%list.

Fixpoint dropPrefix (p s : string) : option string :=
  match p, s with
  | EmptyString, _ => Some s
  | String a p', String b s' =>
      if Ascii.eqb a b then dropPrefix p' s' else None
  | String _ _, EmptyString => None
  end.

(** Removes one leading white-space rune when there is one. *)
Fixpoint dropSpace (pats : list string) (s : string) : option string :=
  match pats with
  | [] => None
  | p :: ps =>
      match dropPrefix p s with
      | Some r => Some r
      | None => dropSpace ps s
      end
  end.

Fixpoint trimLeft (pats : list string) (fuel : nat) (s : string) : string :=
  match fuel with
  | O => s
  | S fuel' =>
      match dropSpace pats s with
      | Some r => trimLeft pats fuel' r
      | None => s
      end
  end.

(** [strings.TrimSpace]: white-space runes removed at both ends.  Every
    removal takes at least one character away, so the length of the string
    is enough fuel. *)
Definition TrimSpace (s : string) : string :=
  let l := trimLeft spaces (String.length s) s in
  let rpats := map (fun p => rev_string p EmptyString) spaces in
  let r := rev_string l EmptyString in
  rev_string (trimLeft rpats (String.length r) r) EmptyString.

Definition digit (a : ascii) : option Z :=
  let n := Z.of_nat (nat_of_ascii a) in
  if ((48 <=? n) && (n <=? 57))%Z then Some (n - 48)%Z else None.

Fixpoint digits (s : string) (acc : Z) : option Z :=
  match s with
  | EmptyString => Some acc
  | String a r =>
      match digit a with
      | Some d => digits r (10 * acc + d)%Z
      | None => None
      end
  end.

(** [strconv.Atoi] on a 64-bit platform: an optional sign and at least one
    decimal digit, an error ([None]) on anything else and on a value that
    does not fit [int]. *)
Definition Atoi (s : string) : option Z :=
  let '(neg, body) :=
    match s with
    | String "-" r => (true, r)
    | String "+" r => (false, r)
    | _ => (false, s)
    end in
  match body with
  | EmptyString => None
  | _ =>
      match digits body 0%Z with
      | Some n =>
          let v := if neg then (- n)%Z else n in
          if ((Int64.min_int <=? v) && (v <=? Int64.max_int))%Z
          then Some v else None
      | None => None
      end
  end.

(** [strings.ToUpper], as far as the code observes it: the result is only
    compared with ASCII words.  ASCII letters are mapped to upper case, and
    so are the two non-ASCII runes whose upper case is an ASCII letter,
    U+0131 (dotless i) and U+017F (long s); every other character is
    kept, which no comparison with an ASCII word can tell from Go's
    result. *)
Definition upper (a : ascii) : ascii :=
  let n := nat_of_ascii a in
  if ((97 <=? n) && (n <=? 122))%nat then ascii_of_nat (n - 32) else a.

Fixpoint ToUpper (s : string) : string :=
  match s with
  | EmptyString => EmptyString
  | String a r =>
      match r with
      | String b r' =>
          if ((nat_of_ascii a =? 196) && (nat_of_ascii b =? 177))%nat
          then String "I" (ToUpper r')
          else if ((nat_of_ascii a =? 197) && (nat_of_ascii b =? 191))%nat
          then String "S" (ToUpper r')
          else String (upper a) (ToUpper r)
      | EmptyString => String (upper a) EmptyString
      end
  end.

End GoStrings.

(** ** ProtocolSession: the NNTP client

    The transport is a world model: what the peer will deliver to the next
    reads ([incoming]), whether the connection has been closed, the sticky
    error of the buffered writer, and the history of the exchange ([log]).
    A read on an exhausted [incoming] is the peer's end of file; a read
    that exceeds [NNTPReadTimeout] is a delivered [Fail ErrTimeout].  Data
    buffered before a close is not modelled: a read on a closed connection
    fails. *)

Module NNTP.

Import GoStrings.
Local Open Scope string_scope.
Local Open Scope list_scope.

(** What one [ReadLine] call meets. *)
Inductive rx : Type :=
| Line (s : string)
| Fail (e : ioerr).

Inductive event : Type :=
| Sent (line : string)      (* a line written to the peer *)
| SendFail (line : string)  (* a line whose write failed *)
| Recv (line : string)      (* a line read from the peer *)
| RecvFail (e : ioerr)      (* a read that failed *)
| Closed                    (* the connection was closed *)
| CloseFail.                (* a close of a closed connection *)

Record NNTPClient : Type := mkClient {
  closed : bool;
  werr : option ioerr;
  incoming : list rx;
  log : list event
}.

Definition logged (c : NNTPClient) (ev : list event) : NNTPClient :=
  mkClient (closed c) (werr c) (incoming c) (log c ++ ev).

(** State and error monad of the client's methods. *)
Definition M (A : Type) : Type := NNTPClient -> NNTPClient * result A.

Definition ret {A} (a : A) : M A := fun c => (c, inr a).

Definition bind {A B} (m : M A) (k : A -> M B) : M B :=
  fun c =>
    match m c with
    | (c', inl e) => (c', inl e)
    | (c', inr a) => k a c'
    end.

Definition fail {A} (e : error) : M A := fun c => (c, inl e).

(** [_ = m]: the call is made and its error dropped. *)
Definition ignore {A} (m : M A) : M unit :=
  fun c => (fst (m c), inr tt).

Notation "x <- m ;; k" := (bind m (fun x => k))
  (at level 61, m at next level, right associativity).
Notation "m ;;; k" := (bind m (fun _ => k))
  (at level 61, right associativity).

(** [c.tw.PrintfLine]: formats the line into the buffered writer and
    flushes it.  A writer that has failed once keeps its error. *)
Definition PrintfLine (line : string) : M unit :=
  fun c =>
    match werr c with
    | Some e => (logged c [SendFail line], inl (IOError e))
    | None =>
        if closed c
        then (mkClient true (Some ErrClosed) (incoming c)
                (log c ++ [SendFail line]), inl (IOError ErrClosed))
        else (logged c [Sent line], inr tt)
    end.

(** [c.flush]: [PrintfLine] has left the buffer empty, so only the sticky
    error is reported. *)
Definition flush : M unit :=
  fun c =>
    match werr c with
    | Some e => (c, inl (IOError e))
    | None => (c, inr tt)
    end.

(** [c.tr.ReadLine] under the read deadline. *)
Definition readLine (c : NNTPClient) : NNTPClient * (ioerr + string) :=
  if closed c then (logged c [RecvFail ErrClosed], inl ErrClosed)
  else
    match incoming c with
    | [] => (logged c [RecvFail ErrEOF], inl ErrEOF)
    | Line s :: rest =>
        (mkClient (closed c) (werr c) rest (log c ++ [Recv s]), inr s)
    | Fail e :: rest =>
        (mkClient (closed c) (werr c) rest (log c ++ [RecvFail e]), inl e)
    end.

Definition ReadLine : M string :=
  fun c =>
    match readLine c with
    | (c', inl e) => (c', inl (IOError e))
    | (c', inr s) => (c', inr s)
    end.

(** The loop of [textproto.Reader.ReadDotLines] on an open connection:
    lines are read up to a line that is a single dot, one leading dot cut
    from every other line that starts with a dot.  Returns what is left
    to deliver, the events, the lines [v] and the error. *)
Fixpoint dotLoop (inc : list rx) (ev : list event) (v : list string)
  : list rx * list event * list string * option ioerr :=
  match inc with
  | [] => ([], ev ++ [RecvFail ErrEOF], v, Some ErrUnexpectedEOF)
  | Fail e :: rest => (rest, ev ++ [RecvFail e], v, Some e)
  | Line line :: rest =>
      if HasPrefix line "." then
        if (String.length line =? 1)%nat
        then (rest, ev ++ [Recv line], v, None)
        else dotLoop rest (ev ++ [Recv line]) (v ++ [tail line])
      else dotLoop rest (ev ++ [Recv line]) (v ++ [line])
  end.

Definition ReadDotLines (c : NNTPClient)
  : NNTPClient * (list string * option ioerr) :=
  if closed c then (logged c [RecvFail ErrClosed], ([], Some ErrClosed))
  else
    let '(rest, ev, v, err) := dotLoop (incoming c) [] [] in
    (mkClient (closed c) (werr c) rest (log c ++ ev), (v, err)).

(** [c.conn.Close]: closing a connection that is already closed is an
    error of the transport. *)
Definition Close : M unit :=
  fun c =>
    if closed c then (logged c [CloseFail], inl (IOError ErrClosed))
    else (mkClient true (werr c) (incoming c) (log c ++ [Closed]), inr tt).

Definition Auth (username password : string) : M unit :=
  if String.eqb username "" then ret tt
  else
    PrintfLine ("AUTHINFO USER " ++ username)%string ;;;
    flush ;;;
    line <- ReadLine ;;
    if HasPrefix line "381" then
      PrintfLine ("AUTHINFO PASS " ++ password)%string ;;;
      flush ;;;
      line <- ReadLine ;;
      if negb (HasPrefix line "281") then fail (AuthRejected line)
      else ret tt
    else if HasPrefix line "281" then ret tt
    else fail (AuthProtocolError line).

(** The methods whose success response carries a dot-terminated payload. *)
Definition payloadMethod (method : string) : bool :=
  let m := ToUpper method in
  String.eqb m "BODY" || String.eqb m "HEAD" || String.eqb m "ARTICLE".

Definition parseCode (line : string) : Z :=
  match SplitN2 line with
  | p0 :: _ =>
      match Atoi (TrimSpace p0) with
      | Some v => v
      | None => 0%Z
      end
  | [] => 0%Z
  end.

Definition Request (method msgid : string) : M (Z * string * list string) :=
  PrintfLine (method ++ " " ++ msgid)%string ;;;
  flush ;;;
  line <- ReadLine ;;
  let code := parseCode line in
  if ((200 <=? code) && (code <? 300))%Z then
    if payloadMethod method then
      fun c =>
        let '(c', (lines, err)) := ReadDotLines c in
        match err with
        | None => (c', inr (code, line, lines))
        | Some _ => (c', inr (code, line, []))
        end
    else ret (code, line, [])
  else ret (code, line, []).

Definition Body (msgid : string) : M (list string) :=
  r <- Request "BODY" msgid ;;
  let '(_, _, lines) := r in ret lines.

Definition Quit : M unit :=
  ignore (PrintfLine "QUIT") ;;;
  ignore flush ;;;
  Close.

(** Number of reads, successful or not, recorded in a history. *)
Definition isRead (ev : event) : bool :=
  match ev with
  | Recv _ | RecvFail _ => true
  | _ => false
  end.

Definition readCount (ev : list event) : nat :=
  List.length (filter isRead ev).

Definition reads (c : NNTPClient) : nat := readCount (log c).

(** A connection as [DialNNTP] hands it over, the greeting consumed. *)
Definition connected (inc : list rx) : NNTPClient :=
  mkClient false None inc [].

End NNTP.

(** ** The manifest, the range planner and the assembler of [getCmd] *)

Module Get.

Import GoStrings.
Local Open Scope list_scope.

Record Segment : Type := mkSegment {
  Bytes : Z;
  Number : Z;
  ID : string
}.

(** The fields of [File] the retrieval reads. *)
Record File : Type := mkFile {
  Subject : string;
  Segments : list Segment;
  Name : string;
  SizeNum : Z
}.

(** [s += seg.Bytes] over the segments. *)
Definition sumBytes (segs : list Segment) : Z :=
  fold_left (fun s seg => s +64 Bytes seg) segs 0.

(** The post-processing step of [parseNZB] for one file.  [yEncParse]
    matches the subject against a regular expression of Go's [regexp]
    and scans the size with [fmt.Sscan]; its result [(name, size)] for
    the file's subject is the argument [parsed]. *)
Definition populate (parsed : string * Z) (f : File) : File :=
  let '(name, size) := parsed in
  let f' :=
    if negb (String.eqb name "")
    then mkFile (Subject f) (Segments f) name (SizeNum f)
    else f in
  if size >? 0
  then mkFile (Subject f') (Segments f') (Name f') size
  else mkFile (Subject f') (Segments f') (Name f') (sumBytes (Segments f')).

Definition parseNZB (yEncParse : string -> string * Z) (files : list File)
  : list File :=
  map (fun f => populate (yEncParse (Subject f)) f) files.

(** The end offset after the default of [getCmd]: zero means the last
    byte of the file. *)
Definition defaultEnd (file : File) (end_ : Z) : Z :=
  if (end_ =? 0)%Z then SizeNum file -64 1 else end_.

(** Range validation of [getCmd]: the range to plan for, or the error. *)
Definition checkRange (file : File) (start end_ : Z) : result (Z * Z) :=
  let end_ := defaultEnd file end_ in
  if (start <? 0) || (end_ <? 0) || (start >? end_)
     || (end_ >=? SizeNum file)
  then inl (RangeOutOfBounds start end_ (SizeNum file))
  else inr (start, end_).

Record piece : Type := mkPiece {
  id : string;
  start : Z;
  end_ : Z
}.

(** The planning loop of [getCmd] over the segments that are left, with
    the pieces and the offset accumulated so far.  The [break] of the
    last piece ends the recursion. *)
Fixpoint planLoop (segs : list Segment) (start end_ : Z)
  (pieces : list piece) (offset : Z) : list piece :=
  match segs with
  | [] => pieces
  | seg :: rest =>
      let segSize := Bytes seg in
      if offset +64 segSize -64 1 <? start
      then planLoop rest start end_ pieces (offset +64 segSize)
      else
        let p := mkPiece (ID seg) 0 (segSize -64 1) in
        let p :=
          if (List.length pieces =? 0)%nat
          then mkPiece (id p) (start -64 offset) (Get.end_ p)
          else p in
        if offset +64 segSize -64 1 >=? end_
        then
          pieces ++
            [mkPiece (id p) (Get.start p)
               (segSize -64 (offset +64 segSize -64 1 -64 end_) -64 1)]
        else planLoop rest start end_ (pieces ++ [p]) (offset +64 segSize)
  end.

Definition plan (segs : list Segment) (start end_ : Z) : list piece :=
  planLoop segs start end_ [] 0.

(** [decoded[lo:hi]]. *)
Definition slice (decoded : list byte) (lo hi : Z) : list byte :=
  firstn (Z.to_nat (hi - lo)) (skipn (Z.to_nat lo) decoded).

Definition isMarkup (line : string) : bool :=
  HasPrefix line "=ybegin" || HasPrefix line "=ypart"
  || HasPrefix line "=yend".

(** The loop over the lines of one piece: [w] is what the sink holds.
    A write to the sink does not fail; a decoding error leaves the sink
    with what has been written. *)
Fixpoint lineLoop (pc : piece) (lines : list string) (segWritten : Z)
  (w : list byte) : list byte * option error :=
  match lines with
  | [] => (w, None)
  | line :: rest =>
      if isMarkup line then lineLoop pc rest segWritten w
      else
        let line := if HasPrefix line ".." then tail line else line in
        match YEnc.decodeYEncLine (list_byte_of_string line) with
        | inl e => (w, Some e)
        | inr decoded =>
            if (List.length decoded =? 0)%nat
            then lineLoop pc rest segWritten w
            else
              let chunkLen := Z.of_nat (List.length decoded) in
              let startOff :=
                if start pc >? segWritten
                then start pc -64 segWritten else 0 in
              let endOff :=
                if end_ pc <? segWritten +64 chunkLen -64 1
                then end_ pc -64 segWritten else chunkLen -64 1 in
              let w :=
                if startOff <=? endOff
                then w ++ slice decoded startOff (endOff +64 1)
                else w in
              let segWritten := segWritten +64 chunkLen in
              if segWritten >? end_ pc then (w, None)
              else lineLoop pc rest segWritten w
        end
  end.

(** The loop over the pieces. *)
Fixpoint fetchLoop (pieces : list piece) (w : list byte)
  (c : NNTP.NNTPClient) : NNTP.NNTPClient * (list byte * option error) :=
  match pieces with
  | [] => (c, (w, None))
  | pc :: rest =>
      match NNTP.Body (id pc) c with
      | (c', inl (IOError e)) => (c', (w, Some (FetchBody (id pc) e)))
      | (c', inl e) => (c', (w, Some e))
      | (c', inr lines) =>
          match lineLoop pc lines 0 w with
          | (w', Some e) => (c', (w', Some e))
          | (w', None) => fetchLoop rest w' c'
          end
      end
  end.

(** [getCmd] from the validation on, for a file found in the manifest
    and a connection that is open and authenticated: what the sink
    holds at the end and the error returned.  The deferred [Quit] runs
    on every path that has a connection. *)
Definition fetch_range (file : File) (start end_ : Z) (c : NNTP.NNTPClient)
  : NNTP.NNTPClient * (list byte * option error) :=
  match checkRange file start end_ with
  | inl e => (c, ([], Some e))
  | inr (s, e) =>
      let '(c', out) := fetchLoop (plan (Segments file) s e) [] c in
      (fst (NNTP.Quit c'), out)
  end.

(** *** The planner in the words of the specification *)

(** Each segment with the offset of its first byte in the file. *)
Fixpoint layout (segs : list Segment) (offset : Z) : list (Segment * Z) :=
  match segs with
  | [] => []
  | seg :: rest => (seg, offset) :: layout rest (offset + Bytes seg)
  end.

Definition absEnd (x : Segment * Z) : Z := snd x + Bytes (fst x) - 1.

(** Skips the segments that end strictly before [start]. *)
Fixpoint dropBefore (start : Z) (l : list (Segment * Z)) : list (Segment * Z) :=
  match l with
  | [] => []
  | x :: rest => if absEnd x <? start then dropBefore start rest else l
  end.

(** Keeps the segments up to the first whose end reaches [end_]. *)
Fixpoint takeThrough (end_ : Z) (l : list (Segment * Z)) : list (Segment * Z) :=
  match l with
  | [] => []
  | x :: rest =>
      if absEnd x >=? end_ then [x] else x :: takeThrough end_ rest
  end.

Definition window (start end_ : Z) (first : bool) (x : Segment * Z) : piece :=
  let size := Bytes (fst x) in
  mkPiece (ID (fst x))
    (if first then start - snd x else 0)
    (if absEnd x >=? end_ then size - 1 - (absEnd x - end_) else size - 1).

Definition plan_spec (segs : list Segment) (start end_ : Z) : list piece :=
  match takeThrough end_ (dropBefore start (layout segs 0)) with
  | [] => []
  | x :: rest =>
      window start end_ true x :: map (window start end_ false) rest
  end.

(** The decoded content of a segment: its payload lines as the transport
    reader returns them, markup lines left out, each decoded. *)
Fixpoint content (lines : list string) : list byte :=
  match lines with
  | [] => []
  | line :: rest =>
      if isMarkup line then content rest
      else
        match YEnc.decodeYEncLine (list_byte_of_string line) with
        | inr decoded => decoded ++ content rest
        | inl _ => content rest
        end
  end.

(** The size of a file as the sum of its declared sizes, in unbounded
    integers. *)
Definition totalBytes (segs : list Segment) : Z :=
  fold_right (fun seg s => Bytes seg + s) 0 segs.

(** [l1] is [l2] with some elements left out, the order kept. *)
Inductive subseq {A : Type} : list A -> list A -> Prop :=
| subseq_nil : subseq [] []
| subseq_skip (x : A) (l1 l2 : list A) : subseq l1 l2 -> subseq l1 (x :: l2)
| subseq_keep (x : A) (l1 l2 : list A) :
    subseq l1 l2 -> subseq (x :: l1) (x :: l2).

(** The piece is a window of the segment. *)
Definition within (seg : Segment) (p : piece) : Prop :=
  id p = ID seg /\ 0 <= start p <= end_ p /\ end_ p < Bytes seg.

(** *** A peer that serves the segments

    The dot-stuffing a sender applies to a payload line, and what a peer
    delivers for one BODY request: the status line, the payload lines
    dot-stuffed, the terminating dot. *)
Definition stuff (line : string) : string :=
  if HasPrefix line "." then String "." line else line.

Definition exchange (ex : string * list string) : list NNTP.rx :=
  NNTP.Line (fst ex)
  :: map (fun l => NNTP.Line (stuff l)) (snd ex) ++ [NNTP.Line "."].

Definition session (exs : list (string * list string)) : list NNTP.rx :=
  flat_map exchange exs.

(** A payload line that is markup, or that decodes and does not start
    with two dots. *)
Definition plainLine (line : string) : Prop :=
  isMarkup line = true
  \/ (HasPrefix line ".." = false
      /\ exists d, YEnc.decodeYEncLine (list_byte_of_string line) = inr d).

(** The peer answers the request for [seg] with a success status and a
    payload of plain lines whose decoded size is the declared one. *)
Definition serves (seg : Segment) (ex : string * list string) : Prop :=
  200 <= NNTP.parseCode (fst ex) < 300
  /\ Forall plainLine (snd ex)
  /\ Z.of_nat (List.length (content (snd ex))) = Bytes seg.

(** The piece that is a whole segment. *)
Definition whole (seg : Segment) : piece :=
  mkPiece (ID seg) 0 (Bytes seg - 1).

(** Declared sizes that are not negative, and declared sizes that are
    positive [int64] values. *)
Definition nonneg (segs : list Segment) : Prop :=
  Forall (fun seg => 0 <= Bytes seg) segs.

Definition positive (segs : list Segment) : Prop :=
  Forall (fun seg => 0 < Bytes seg <= Int64.max_int) segs.

End Get.

(** ** A peer that answers the requests of a plan *)

Module Served.

Import Get.
Local Open Scope list_scope.

(** The peer keeps, for every message id, the status line and the payload
    lines it answers a BODY request with; the requests of the pieces are
    answered in their order. *)
Definition script (db : string -> string * list string)
  (pieces : list piece) : list NNTP.rx :=
  session (map (fun p => db (id p)) pieces).

(** The decoded content of the file: that of its segments, in order. *)
Definition fileContent (db : string -> string * list string)
  (segs : list Segment) : list byte :=
  List.concat (map (fun seg => content (snd (db (ID seg)))) segs).

(** Every segment is served with a content of its declared size. *)
Definition servesAll (db : string -> string * list string)
  (segs : list Segment) : Prop :=
  Forall (fun seg => serves seg (db (ID seg))) segs.

(** The pieces of the segments kept by the planner, the first of them
    starting inside its segment. *)
Definition windows (start end_ : Z) (l : list (Segment * Z)) : list piece :=
  match l with
  | [] => []
  | x :: rest =>
      window start end_ true x :: map (window start end_ false) rest
  end.

(** The bytes the line loop is still to write: of the content that is
    left, those at the positions [max segWritten a] to [b] of the segment. *)
Definition pending (a b segWritten : Z) (left : list byte) : list byte :=
  firstn (Z.to_nat (b + 1 - Z.max segWritten a))
    (skipn (Z.to_nat (a - segWritten)) left).

(** The number of characters in a list of lines, and in the lines a peer
    is still to deliver. *)
Definition chars (lines : list string) : Z :=
  fold_right (fun l n => Z.of_nat (String.length l) + n) 0 lines.

Definition volume (inc : list NNTP.rx) : Z :=
  fold_right (fun r n => match r with
                         | NNTP.Line l => Z.of_nat (String.length l) + n
                         | NNTP.Fail _ => n
                         end) 0 inc.

(** The number of bytes a plan asks for. *)
Definition planned (pieces : list piece) : Z :=
  fold_right (fun p n => (end_ p - start p + 1) + n) 0 pieces.

(** Pieces whose window is not empty and fits [int64]. *)
Definition wellFormed (pieces : list piece) : Prop :=
  Forall (fun p => 0 <= start p <= end_ p /\ end_ p <= Int64.max_int) pieces.

End Served.

(** ** Article submission: [NNTPClient.Post] *)

Module Posting.

Import GoStrings NNTP.
Local Open Scope string_scope.
Local Open Scope list_scope.

(** The errors of [Post]: the two it creates, and those of the reads and
    writes, passed on. *)
Inductive postError : Type :=
| PostRejected (line : string)   (* "server refused to accept post: %s" *)
| PostFailed (line : string)     (* "post failed: %s" *)
| PostOther (e : error).

Definition P (A : Type) : Type := NNTPClient -> NNTPClient * (postError + A).

Definition lift {A} (m : M A) : P A :=
  fun c =>
    match m c with
    | (c', inl e) => (c', inl (PostOther e))
    | (c', inr a) => (c', inr a)
    end.

Definition pbind {A B} (m : P A) (k : A -> P B) : P B :=
  fun c =>
    match m c with
    | (c', inl e) => (c', inl e)
    | (c', inr a) => k a c'
    end.

Notation "x <-- m ;; k" := (pbind m (fun x => k))
  (at level 61, m at next level, right associativity).
Notation "m ;;-- k" := (pbind m (fun _ => k))
  (at level 61, right associativity).

(** [strings.Split s "\n"]: the text between the line feeds, one element
    more than there are line feeds. *)
Fixpoint Split (s : string) : list string :=
  match s with
  | EmptyString => [EmptyString]
  | String a r =>
      if Ascii.eqb a "010"%char then EmptyString :: Split r
      else
        match Split r with
        | h :: t => String a h :: t
        | [] => [String a EmptyString]
        end
  end.

(** [strings.ToLower], as far as the code observes it: the result is only
    tested for an ASCII prefix.  ASCII letters are mapped to lower case,
    and so are the two non-ASCII runes whose lower case is an ASCII
    letter, U+0130 (capital I with dot) and U+212A (Kelvin sign); every
    other character is kept. *)
Definition lower (a : ascii) : ascii :=
  let n := nat_of_ascii a in
  if ((65 <=? n) && (n <=? 90))%nat then ascii_of_nat (n + 32) else a.

Fixpoint ToLower (s : string) : string :=
  match s with
  | EmptyString => EmptyString
  | String a r =>
      match r with
      | String b r' =>
          if ((nat_of_ascii a =? 196) && (nat_of_ascii b =? 176))%nat
          then String "i" (ToLower r')
          else
            match r' with
            | String c r'' =>
                if ((nat_of_ascii a =? 226) && (nat_of_ascii b =? 132)
                    && (nat_of_ascii c =? 170))%nat
                then String "k" (ToLower r'')
                else String (lower a) (ToLower r)
            | EmptyString => String (lower a) (ToLower r)
            end
      | EmptyString => String (lower a) EmptyString
      end
  end.

(** [strings.SplitN l ":" 2]. *)
Fixpoint cutColon (s : string) : string * option string :=
  match s with
  | EmptyString => (EmptyString, None)
  | String a r =>
      if Ascii.eqb a ":" then (EmptyString, Some r)
      else let '(h, t) := cutColon r in (String a h, t)
  end.

(** The search for the message id in the lines of the article. *)
Fixpoint messageID (lines : list string) : string :=
  match lines with
  | [] => EmptyString
  | l :: rest =>
      if HasPrefix (ToLower l) "message-id:" then
        match cutColon l with
        | (_, Some v) => TrimSpace v
        | (_, None) => messageID rest
        end
      else messageID rest
  end.

(** The loop that sends the article, a line that starts with a dot
    stuffed with one more.  [format] is what [fmt] makes of a line used
    as a format without operands: the line itself unless it holds a
    percent sign. *)
Fixpoint sendLines (format : string -> string) (lines : list string)
  : P unit :=
  match lines with
  | [] => fun c => (c, inr tt)
  | l :: rest =>
      let l := if HasPrefix l "." then String "." l else l in
      lift (PrintfLine (format l)) ;;--
      sendLines format rest
  end.

Definition Post (format : string -> string) (article : string) : P string :=
  lift (PrintfLine "POST") ;;--
  lift flush ;;--
  line <-- lift ReadLine ;;
  if negb (HasPrefix line "340") then fun c => (c, inl (PostRejected line))
  else
    sendLines format (Split article) ;;--
    lift (PrintfLine ".") ;;--
    lift flush ;;--
    line <-- lift ReadLine ;;
    if negb (HasPrefix line "240") then fun c => (c, inl (PostFailed line))
    else fun c => (c, inr (messageID (Split article))).

(** The lines a history records as sent. *)
Fixpoint sent (ev : list event) : list string :=
  match ev with
  | [] => []
  | Sent l :: rest => l :: sent rest
  | _ :: rest => sent rest
  end.

End Posting.

(** ** Configuration lookup, connection set-up and the server checks *)

Module Servers.

Import GoStrings NNTP.
Local Open Scope string_scope.
Local Open Scope list_scope.

Record ServerConfig : Type := mkServer {
  Name : string;
  Hostname : string;
  Port : Z;
  SSL : bool;
  Username : string;
  Password : string;
  Connections : Z
}.

Record Config : Type := mkConfig {
  Default : string;
  Servers : list ServerConfig
}.

(** [Config.Server]: the first server of that name, the default name
    standing in for an empty one. *)
Definition Server (c : Config) (name : string) : option ServerConfig :=
  let name :=
    if String.eqb name "" && negb (String.eqb (Default c) "")
    then Default c else name in
  find (fun srv => String.eqb (Name srv) name) (Servers c).

Inductive dialError : Type :=
| ConnectFailed                      (* "connect %s: %w" *)
| GreetingRead (e : ioerr)
| UnexpectedGreeting (line : string). (* "unexpected greeting: %s" *)

(** The outcome of [DialNNTP]: a client, or an error together with the
    connection as it is left when one had been made. *)
Inductive dialResult : Type :=
| Dialed (client : NNTPClient)
| DialFailed (e : dialError) (conn : option NNTPClient).

(** [DialNNTP] once the network has answered: [peer] is [None] when the
    connection cannot be made, and otherwise what the peer will deliver. *)
Definition DialNNTP (peer : option (list rx)) : dialResult :=
  match peer with
  | None => DialFailed ConnectFailed None
  | Some inc =>
      match readLine (connected inc) with
      | (c, inl e) => DialFailed (GreetingRead e) (Some (fst (Close c)))
      | (c, inr line) =>
          if negb (HasPrefix line "200") && negb (HasPrefix line "201")
          then DialFailed (UnexpectedGreeting line) (Some (fst (Close c)))
          else Dialed c
      end
  end.

(** What [validateCmd] prints for a server. *)
Inductive verdict : Type :=
| Invalid                      (* "invalid (missing hostname/port)" *)
| OkConfigured                 (* "ok (host=%s:%d ssl=%t)" *)
| ConnectError (e : dialError) (* "connect failed: %v" *)
| AuthError (e : error)        (* "auth failed: %v" *)
| OkChecked.                   (* "ok" *)

(** The body of the loop of [validateCmd] for one server: the verdict
    printed, whether [ok] is kept, and the connection as it is left when
    one was made. *)
Definition validateServer (check : bool)
  (network : ServerConfig -> option (list rx)) (s : ServerConfig)
  : verdict * bool * option NNTPClient :=
  if String.eqb (Hostname s) "" || (Port s =? 0)%Z
  then (Invalid, false, None)
  else if negb check then (OkConfigured, true, None)
  else
    match DialNNTP (network s) with
    | DialFailed e conn => (ConnectError e, false, conn)
    | Dialed client =>
        if negb (String.eqb (Username s) "") then
          match Auth (Username s) (Password s) client with
          | (client', inl e) =>
              (AuthError e, false, Some (fst (Quit client')))
          | (client', inr _) => (OkChecked, true, Some (fst (Quit client')))
          end
        else (OkChecked, true, Some (fst (Quit client)))
    end.

(** Whether the loop of [validateCmd] keeps [ok] at a server. *)
Definition kept (check : bool) (network : ServerConfig -> option (list rx))
  (s : ServerConfig) : bool :=
  snd (fst (validateServer check network s)).

Inductive validateError : Type :=
| NoServers          (* "no servers configured" *)
| ChecksFailed.      (* "some checks failed" *)

(** The loop of [validateCmd]: the verdicts printed so far and the flag
    [ok]. *)
Fixpoint validateLoop (check : bool)
  (network : ServerConfig -> option (list rx)) (servers : list ServerConfig)
  (printed : list verdict) (ok : bool) : list verdict * bool :=
  match servers with
  | [] => (printed, ok)
  | s :: rest =>
      let '(v, keep, _) := validateServer check network s in
      validateLoop check network rest (printed ++ [v])
        (if keep then ok else false)
  end.

(** [validateCmd] on the servers selected: the verdicts printed and the
    error returned. *)
Definition validate (check : bool)
  (network : ServerConfig -> option (list rx)) (servers : list ServerConfig)
  : list verdict * option validateError :=
  if (List.length servers =? 0)%nat then ([], Some NoServers)
  else
    let '(printed, ok) := validateLoop check network servers [] true in
    (printed, if negb ok then Some ChecksFailed else None).

(** *** [checkCmd] *)

Inductive checkOutput : Type :=
| Checking (file : string)
| Missing (id file line : string)
| Checked (file : string).

Inductive checkError : Type :=
| RequestFailed (method id : string) (e : error).  (* "request %s %s: %w" *)

(** The loop over the segments of one file: what is printed, and the
    error that ends it. *)
Fixpoint checkSegments (method file : string) (ids : list string)
  (printed : list checkOutput) (c : NNTPClient)
  : NNTPClient * (list checkOutput * option checkError) :=
  match ids with
  | [] => (c, (printed, None))
  | id :: rest =>
      match Request method id c with
      | (c', inl e) => (c', (printed, Some (RequestFailed method id e)))
      | (c', inr (code, line, _)) =>
          let printed :=
            if (code =? 430)%Z then printed ++ [Missing id file line]
            else printed in
          checkSegments method file rest printed c'
      end
  end.

(** The loop over the files, each with its name and the ids of its
    segments. *)
Fixpoint checkFiles (method : string) (files : list (string * list string))
  (printed : list checkOutput) (c : NNTPClient)
  : NNTPClient * (list checkOutput * option checkError) :=
  match files with
  | [] => (c, (printed, None))
  | (name, ids) :: rest =>
      match checkSegments method name ids (printed ++ [Checking name]) c with
      | (c', (printed', Some e)) => (c', (printed', Some e))
      | (c', (printed', None)) =>
          checkFiles method rest (printed' ++ [Checked name]) c'
      end
  end.

(** The lines a check of one file prints for segments and the status
    lines they were answered with: one for every answer with code 430. *)
Definition missing (file : string) (answers : list (string * string))
  : list checkOutput :=
  flat_map (fun x : string * string =>
              if (parseCode (snd x) =? 430)%Z
              then [Missing (fst x) file (snd x)] else [])
    answers.

(** The output of a check of files that are given with the status lines
    their segments were answered with. *)
Definition report (files : list ((string * list string) * list string))
  : list checkOutput :=
  flat_map (fun x : (string * list string) * list string =>
              Checking (fst (fst x))
              :: missing (fst (fst x)) (combine (snd (fst x)) (snd x))
              ++ [Checked (fst (fst x))])
    files.

End Servers.

(** ** The index page helpers *)

Module Html.

Local Open Scope string_scope.
Local Open Scope list_scope.

(** [strings.ReplaceAll s old new] for an [old] of one character. *)
Fixpoint replaceChar (old : ascii) (new : string) (s : string) : string :=
  match s with
  | EmptyString => EmptyString
  | String a r =>
      if Ascii.eqb a old then new ++ replaceChar old new r
      else String a (replaceChar old new r)
  end.

Definition urlSafe (s : string) : string :=
  replaceChar "/" "%2F" (replaceChar " " "%20" s).

(** The replacer of [escapeXml]: every character is replaced on its own,
    in one pass. *)
Definition escapeChar (a : ascii) : string :=
  if Ascii.eqb a "&" then "&amp;"
  else if Ascii.eqb a "<" then "&lt;"
  else if Ascii.eqb a ">" then "&gt;"
  else if Ascii.eqb a "'" then "&apos;"
  else if Ascii.eqb a (ascii_of_nat 34) then "&quot;"
  else String a EmptyString.

Fixpoint escapeXml (unsafe : string) : string :=
  match unsafe with
  | EmptyString => EmptyString
  | String a r => escapeChar a ++ escapeXml r
  end.

(** Whether a character occurs in a string. *)
Fixpoint occurs (a : ascii) (s : string) : bool :=
  match s with
  | EmptyString => false
  | String b r => Ascii.eqb a b || occurs a r
  end.

End Html.

(** ** Configuration from an environment file *)

Module EnvConfig.

Import GoStrings Servers.
Local Open Scope string_scope.
Local Open Scope list_scope.

(** A Go [map[string]string], the latest binding of a key first. *)
Definition smap : Type := list (string * string).

(** [m[k]]: the empty string for a key that is not in the map. *)
Fixpoint get (m : smap) (k : string) : string :=
  match m with
  | [] => ""
  | (k', v) :: r => if String.eqb k' k then v else get r k
  end.

(** [m[k] = v]. *)
Definition set (m : smap) (k v : string) : smap := (k, v) :: m.

(** [strconv.ParseBool]. *)
Definition ParseBool (s : string) : option bool :=
  if existsb (String.eqb s) ["1"; "t"; "T"; "TRUE"; "true"; "True"]
  then Some true
  else if existsb (String.eqb s) ["0"; "f"; "F"; "FALSE"; "false"; "False"]
  then Some false
  else None.

(** The value [strconv.Atoi] returns, whatever its error: 0 for a string
    that is not a number, the nearest bound of [int] for a number out of
    range. *)
Definition AtoiValue (s : string) : Z :=
  let '(neg, body) :=
    match s with
    | String "-" r => (true, r)
    | String "+" r => (false, r)
    | _ => (false, s)
    end in
  match body with
  | EmptyString => 0
  | _ =>
      match digits body 0%Z with
      | Some n =>
          let v := if neg then (- n)%Z else n in
          Z.max Int64.min_int (Z.min v Int64.max_int)
      | None => 0
      end
  end.

Definition serverFromMap (m : smap) : ServerConfig :=
  let hostname :=
    let v := get m "HOSTNAME" in if negb (String.eqb v "") then v else "" in
  let port :=
    let v := get m "PORT" in
    if negb (String.eqb v "")
    then match Atoi v with Some p => p | None => 0 end
    else 0 in
  let ssl :=
    let v := get m "SSL" in
    if negb (String.eqb v "")
    then match ParseBool v with Some b => b | None => false end
    else false in
  let username :=
    let v := get m "USERNAME" in if negb (String.eqb v "") then v else "" in
  let password :=
    let v := get m "PASSWORD" in if negb (String.eqb v "") then v else "" in
  let connections :=
    let v := get m "CONNECTIONS" in
    if negb (String.eqb v "")
    then match Atoi v with Some n => n | None => 0 end
    else 0 in
  mkServer "" hostname port ssl username password connections.

(** [srv.Name = name]. *)
Definition setName (srv : ServerConfig) (name : string) : ServerConfig :=
  mkServer name (Hostname srv) (Port srv) (SSL srv) (Username srv)
    (Password srv) (Connections srv).

(** *** The pattern of the keys *)

Definition isDigit (a : ascii) : bool :=
  let n := nat_of_ascii a in ((48 <=? n) && (n <=? 57))%nat.

Definition isUpper (a : ascii) : bool :=
  let n := nat_of_ascii a in ((65 <=? n) && (n <=? 90))%nat.

Fixpoint all (p : ascii -> bool) (s : string) : bool :=
  match s with
  | EmptyString => true
  | String a r => p a && all p r
  end.

(** [[A-Z0-9_]+] on a whole string. *)
Definition word (s : string) : bool :=
  negb (String.eqb s "")
  && all (fun a => isUpper a || isDigit a || Ascii.eqb a "_") s.

(** The longest prefix of digits, and what follows it. *)
Fixpoint spanDigits (s : string) : string * string :=
  match s with
  | EmptyString => ("", "")
  | String a r =>
      if isDigit a
      then let '(d, t) := spanDigits r in (String a d, t)
      else ("", s)
  end.

(** [envIndexedKeyRe.FindStringSubmatch], the two groups of
    [^NNTP_(?:([0-9]+)_)?([A-Z0-9_]+)$]: the digits of the index, empty
    when the optional group takes no part in the match, and the field.
    The index can only be the longest run of digits, which an underscore
    and a field have to follow; a key that has no such reading is matched
    as a field alone. *)
Definition FindStringSubmatch (k : string) : option (string * string) :=
  match dropPrefix "NNTP_" k with
  | None => None
  | Some r =>
      let plain := if word r then Some ("", r) else None in
      match spanDigits r with
      | (String a d, String b t) =>
          if Ascii.eqb b "_" && word t then Some (String a d, t) else plain
      | _ => plain
      end
  end.

(** [indexed[i]]: [None] for the nil map of a missing index. *)
Fixpoint lookup (indexed : list (Z * smap)) (i : Z) : option smap :=
  match indexed with
  | [] => None
  | (j, mm) :: r => if (j =? i)%Z then Some mm else lookup r i
  end.

(** The first loop of [configFromEnvMap], over the entries of the map in
    the order in which the iteration yields them. *)
Fixpoint collect (m : list (string * string)) (indexed : list (Z * smap))
  (base : smap) : list (Z * smap) * smap :=
  match m with
  | [] => (indexed, base)
  | (k, v) :: rest =>
      if negb (HasPrefix k "NNTP_") then collect rest indexed base
      else
        match FindStringSubmatch k with
        | Some (m1, m2) =>
            if String.eqb m1 "" then collect rest indexed (set base m2 v)
            else
              let idx := AtoiValue m1 in
              let mm := match lookup indexed idx with
                        | Some mm => mm
                        | None => []
                        end in
              collect rest ((idx, set mm m2 v) :: indexed) base
        | None => collect rest indexed base
        end
  end.

(** [fmt.Sprintf("server-%d", i)]. *)
Definition serverName (i : Z) : string :=
  "server-" ++ NilZero.string_of_int (Z.to_int i).

(** The server made of the keys of index [i]. *)
Definition indexedServer (i : Z) (mm : smap) : ServerConfig :=
  let srv := serverFromMap mm in
  let name := get mm "NAME" in
  setName srv (if String.eqb name "" then serverName i else name).

(** The server made of the keys without index. *)
Definition baseServer (base : smap) : ServerConfig :=
  let srv := serverFromMap base in
  let name := get base "NAME" in
  setName srv (if String.eqb name "" then "default" else name).

(** The loop [for i := 0; ; i++] over the indexed servers; it ends at the
    first index without keys. *)
Fixpoint indexedLoop (indexed : list (Z * smap)) (fuel : nat) (i : Z)
  (servers : list ServerConfig) : list ServerConfig :=
  match fuel with
  | O => servers
  | S fuel =>
      match lookup indexed i with
      | None => servers
      | Some mm =>
          indexedLoop indexed fuel (i +64 1) (servers ++ [indexedServer i mm])
      end
  end.

(** [configFromEnvMap]; the loop over the indices is given one step more
    than there are indices. *)
Definition configFromEnvMap (m : list (string * string)) : Config :=
  let '(indexed, base) := collect m [] [] in
  let servers := indexedLoop indexed (S (List.length indexed)) 0 [] in
  let servers :=
    if (List.length servers =? 0)%nat && (0 <? List.length base)%nat
    then servers ++ [baseServer base]
    else servers in
  mkConfig "" servers.

(** The index a key gives its value, when it gives one. *)
Definition index (k : string) : option Z :=
  if negb (HasPrefix k "NNTP_") then None
  else
    match FindStringSubmatch k with
    | Some (m1, _) => if String.eqb m1 "" then None else Some (AtoiValue m1)
    | None => None
    end.

(** Whether a key gives its value to the indexed server 0. *)
Definition first (k : string) : bool :=
  match index k with
  | Some i => (i =? 0)%Z
  | None => false
  end.

End EnvConfig.

(** * Properties *)

(** ** LineCodec *)

Module YEncFacts.

Import YEnc.

Lemma eqb_esc_true (c : byte) : Byte.eqb c esc = true -> c = esc.
Proof. apply Byte.byte_dec_bl. Qed.

Lemma eqb_esc_refl : Byte.eqb esc esc = true.
Proof. reflexivity. Qed.

(** Induction that follows the decoder: one or two characters a step. *)
Lemma list_pair_ind (A : Type) (P : list A -> Prop) :
  P [] ->
  (forall a, P [a]) ->
  (forall a b l, P l -> P (b :: l) -> P (a :: b :: l)) ->
  forall l, P l.
Proof.
  intros Hnil Hone Hstep l.
  assert (H : P l /\ forall a, P (a :: l)).
  { induction l as [|b l [IHl IHbl]].
    - split; [exact Hnil | exact Hone].
    - split; [apply IHbl | intro a; apply Hstep; [exact IHl | apply IHbl]]. }
  exact (proj1 H).
Qed.

Lemma decodeLoop_step (a b : byte) (l out : list byte) :
  decodeLoop (a :: b :: l) out
  = if Byte.eqb a esc then decodeLoop l (out ++ [unescape b])
    else decodeLoop (b :: l) (out ++ [unshift a]).
Proof. reflexivity. Qed.

Lemma trailingEsc_cons (c : byte) (r : list byte) :
  trailingEsc (c :: r)
  = if Byte.eqb c esc && (trailingEsc r =? List.length r)%nat
    then S (trailingEsc r) else trailingEsc r.
Proof. reflexivity. Qed.

Lemma unescape_escaped (b : byte) :
  unescape (byte_of_int ((int_of_byte b + 42 + 64) mod 256)) = b.
Proof. destruct b; vm_compute; reflexivity. Qed.

Lemma unshift_shifted (b : byte) :
  unshift (byte_of_int ((int_of_byte b + 42) mod 256)) = b.
Proof. destruct b; vm_compute; reflexivity. Qed.

(** Decoding what [encode_byte] produced gives the byte back and goes on
    with the rest of the line. *)
Lemma decodeLoop_encode_byte critical b rest out :
  decodeLoop (encode_byte critical b ++ rest) out
  = decodeLoop rest (out ++ [b]).
Proof.
  unfold encode_byte.
  destruct (Byte.eqb (byte_of_int ((int_of_byte b + 42) mod 256)) esc)
    eqn:He; simpl.
  - rewrite unescape_escaped. reflexivity.
  - destruct (critical _); simpl.
    + rewrite unescape_escaped. reflexivity.
    + rewrite He, unshift_shifted. reflexivity.
Qed.

Lemma decodeLoop_encode_line critical raw : forall out,
  decodeLoop (encode_line critical raw) out = inr (out ++ raw).
Proof.
  induction raw as [|b raw IH]; intro out; simpl.
  - rewrite app_nil_r. reflexivity.
  - rewrite decodeLoop_encode_byte.
    change (flat_map (encode_byte critical) raw) with (encode_line critical raw).
    rewrite IH, <- app_assoc. reflexivity.
Qed.

(** Whole lines round-trip, whatever the set of escaped values is. *)
Lemma decode_encode_line critical raw :
  decodeYEncLine (encode_line critical raw) = inr raw.
Proof.
  unfold decodeYEncLine.
  destruct (encode_line critical raw) eqn:E.
  - destruct raw as [|b raw]; [reflexivity|].
    exfalso. unfold encode_line in E. simpl in E.
    unfold encode_byte in E.
    destruct (_ || _) in E; discriminate.
  - rewrite <- E. apply (decodeLoop_encode_line critical raw []).
Qed.

(** C4: for every byte [b], decoding the mirror encoding of the line [[b]]
    succeeds and returns [[b]], whichever values the encoder escapes
    besides the escape marker. *)
Theorem decode_encode_byte :
  forall (critical : byte -> bool) (b : byte),
    decodeYEncLine (encode_line critical [b]) = inr [b].
Proof.
  intros critical b. apply decode_encode_line.
Qed.

(** *** Failure of the decoder *)

Lemma trailingEsc_le (l : list byte) : (trailingEsc l <= List.length l)%nat.
Proof.
  induction l as [|c r IH]; simpl; [lia|].
  destruct (Byte.eqb c esc && (trailingEsc r =? List.length r)%nat); lia.
Qed.

Lemma trailingEsc_repeat (k : nat) : trailingEsc (repeat esc k) = k.
Proof.
  induction k as [|k IH]; simpl; [reflexivity|].
  rewrite IH, repeat_length, Nat.eqb_refl. reflexivity.
Qed.

(** The decoder fails exactly on an odd run of trailing markers: the
    markers of the run pair up from its left end. *)
Lemma decodeLoop_fails_iff (line : list byte) : forall out,
  decodeLoop line out = inl MalformedEscape
  <-> Nat.odd (trailingEsc line) = true.
Proof.
  induction line as [|a|a b l IHl IHbl] using list_pair_ind; intro out.
  - simpl. split; discriminate.
  - simpl. destruct (Byte.eqb a esc); simpl; split;
      (reflexivity || discriminate).
  - rewrite decodeLoop_step.
    pose proof (trailingEsc_le l) as Hle.
    destruct (Byte.eqb a esc) eqn:Ha.
    + rewrite IHl.
      rewrite (trailingEsc_cons a), Ha, (trailingEsc_cons b).
      cbn [andb List.length].
      destruct (Byte.eqb b esc && (trailingEsc l =? List.length l)%nat)
        eqn:Hb.
      * apply andb_prop in Hb. destruct Hb as [_ Hb].
        apply Nat.eqb_eq in Hb. rewrite Hb, Nat.eqb_refl.
        rewrite Nat.odd_succ, Nat.even_succ. reflexivity.
      * replace (trailingEsc l =? S (List.length l))%nat with false
          by (symmetry; apply Nat.eqb_neq; lia).
        reflexivity.
    + rewrite IHbl, (trailingEsc_cons a), Ha. reflexivity.
Qed.


(** [trailingEsc] is the length of the final run of markers. *)
Lemma trailingEsc_split (l : list byte) :
  exists pre, l = pre ++ repeat esc (trailingEsc l) /\ ~ endsInEsc pre.
Proof.
  induction l as [|c r (pre & Hr & Hpre)].
  - exists []. split; [reflexivity|]. intros [p Hp].
    destruct p; discriminate.
  - simpl.
    destruct (Byte.eqb c esc && (trailingEsc r =? List.length r)%nat) eqn:Hc.
    + apply andb_prop in Hc. destruct Hc as [Hc Hall].
      apply eqb_esc_true in Hc. apply Nat.eqb_eq in Hall. subst c.
      assert (pre = []) as ->.
      { apply (f_equal (@List.length byte)) in Hr.
        rewrite length_app, repeat_length in Hr.
        destruct pre; [reflexivity | simpl in Hr; lia]. }
      exists []. split.
      * simpl in *. rewrite <- Hr. reflexivity.
      * intros [p Hp]. destruct p; discriminate.
    + exists (c :: pre). split.
      * simpl. rewrite <- Hr. reflexivity.
      * intros [p Hp].
        destruct p as [|c' p]; simpl in Hp.
        -- injection Hp as -> ->. simpl in Hr.
           rewrite Hr, trailingEsc_repeat, repeat_length, Nat.eqb_refl in Hc.
           discriminate.
        -- injection Hp as _ Hp. apply Hpre. exists p. exact Hp.
Qed.

Lemma trailingEsc_unique (pre : list byte) (k : nat) :
  ~ endsInEsc pre -> trailingEsc (pre ++ repeat esc k) = k.
Proof.
  induction pre as [|c pre IH]; intro Hpre.
  - apply trailingEsc_repeat.
  - simpl.
    destruct pre as [|c' pre'].
    + simpl. rewrite trailingEsc_repeat, repeat_length, Nat.eqb_refl.
      destruct (Byte.eqb c esc) eqn:Hc; [|reflexivity].
      exfalso. apply Hpre. exists []. apply eqb_esc_true in Hc.
      subst c. reflexivity.
    + assert (Hpre' : ~ endsInEsc (c' :: pre')).
      { intros [p Hp]. apply Hpre. exists (c :: p). simpl.
        rewrite Hp. reflexivity. }
      rewrite (IH Hpre').
      replace (k =? List.length ((c' :: pre') ++ repeat esc k))%nat
        with false.
      * rewrite andb_false_r. reflexivity.
      * symmetry. apply Nat.eqb_neq.
        rewrite length_app, repeat_length. simpl. lia.
Qed.

Lemma decode_result (line : list byte) : forall out,
  decodeLoop line out = inl MalformedEscape
  \/ exists out', decodeLoop line out = inr out'.
Proof.
  induction line as [|a|a b l IHl IHbl] using list_pair_ind; intro out.
  - right. exists out. reflexivity.
  - simpl. destruct (Byte.eqb a esc); [left | right; eexists]; reflexivity.
  - rewrite decodeLoop_step.
    destruct (Byte.eqb a esc); [apply IHl | apply IHbl].
Qed.

(** The decoder fails exactly on a well-formed line followed by a lone
    marker. *)
Lemma decodeLoop_app (l1 : list byte) : forall l2 out out1,
  decodeLoop l1 out = inr out1 ->
  decodeLoop (l1 ++ l2) out = decodeLoop l2 out1.
Proof.
  induction l1 as [|a|a b l IHl IHbl] using list_pair_ind;
    intros l2 out out1 H.
  - simpl in *. injection H as ->. reflexivity.
  - simpl in H. destruct (Byte.eqb a esc) eqn:Ha; [discriminate|].
    injection H as <-. simpl. rewrite Ha. reflexivity.
  - rewrite decodeLoop_step in H.
    change ((a :: b :: l) ++ l2) with (a :: b :: (l ++ l2)).
    rewrite decodeLoop_step.
    change (b :: (l ++ l2)) with ((b :: l) ++ l2).
    destruct (Byte.eqb a esc).
    + apply IHl. exact H.
    + apply (IHbl l2 _ out1). exact H.
Qed.

(** C5: the empty line decodes to the empty output; a line fails, with
    [MalformedEscape], exactly when it ends in an escape marker that has
    no character left to unescape, that is when the markers that end the
    line are odd in number (they pair up from the left, the last one is
    left alone); every other line decodes. *)
Theorem decodeYEncLine_fails_iff :
  decodeYEncLine [] = inr []
  /\ forall line : list byte,
       (decodeYEncLine line = inl MalformedEscape
        <-> exists pre k,
              line = pre ++ repeat esc (2 * k + 1) /\ ~ endsInEsc pre)
       /\ (decodeYEncLine line = inl MalformedEscape
           \/ exists out, decodeYEncLine line = inr out).
Proof.
  split; [reflexivity|].
  intro line.
  assert (Hd : decodeYEncLine line = decodeLoop line []).
  { destruct line; reflexivity. }
  rewrite Hd. split; [|apply decode_result].
  rewrite decodeLoop_fails_iff. split.
  - intro Hodd.
    destruct (trailingEsc_split line) as (pre & Hl & Hpre).
    apply Nat.odd_spec in Hodd. destruct Hodd as [k Hk].
    exists pre, k. rewrite <- Hk. split; assumption.
  - intros (pre & k & -> & Hpre).
    rewrite (trailingEsc_unique pre (2 * k + 1) Hpre).
    apply Nat.odd_spec. exists k. reflexivity.
Qed.

(** The same failure seen from the decoder: a prefix that decodes,
    followed by one marker. *)
Lemma decodeYEncLine_dangling (pre out : list byte) :
  decodeYEncLine pre = inr out ->
  decodeYEncLine (pre ++ [esc]) = inl MalformedEscape.
Proof.
  intro H.
  assert (Hd : decodeLoop pre [] = inr out).
  { destruct pre; [injection H as <-; reflexivity | exact H]. }
  assert (Hd' : decodeYEncLine (pre ++ [esc]) = decodeLoop (pre ++ [esc]) []).
  { destruct (pre ++ [esc]) eqn:E; [|reflexivity].
    destruct pre; discriminate. }
  rewrite Hd', (decodeLoop_app pre [esc] [] out Hd). reflexivity.
Qed.

End YEncFacts.

(** ** Machine arithmetic *)

Module Int64Facts.

Import Int64.

Lemma min_int_val : min_int = -9223372036854775808.
Proof. reflexivity. Qed.

Lemma max_int_val : max_int = 9223372036854775807.
Proof. reflexivity. Qed.

Lemma wrap64_val (z : Z) :
  wrap64 z
  = (z + 9223372036854775808) mod 18446744073709551616 - 9223372036854775808.
Proof. reflexivity. Qed.

(** In range there is no wrap-around. *)
Lemma wrap64_small (z : Z) : in_range z -> wrap64 z = z.
Proof.
  unfold in_range. rewrite min_int_val, max_int_val, wrap64_val.
  intro H. rewrite Z.mod_small; lia.
Qed.

(** One step above the range the value comes back from the bottom. *)
Lemma wrap64_over (z : Z) :
  max_int < z <= max_int + 2 ^ 64 -> wrap64 z = z - 2 ^ 64.
Proof.
  rewrite max_int_val, wrap64_val.
  change (2 ^ 64) with 18446744073709551616. intro H.
  replace (z + 9223372036854775808)
    with ((z - 18446744073709551616 + 9223372036854775808)
          + 1 * 18446744073709551616) by lia.
  rewrite Z.mod_add by lia. rewrite Z.mod_small; lia.
Qed.

Lemma wrap64_in_range (z : Z) : in_range (wrap64 z).
Proof.
  unfold in_range. rewrite min_int_val, max_int_val, wrap64_val.
  pose proof (Z.mod_pos_bound (z + 9223372036854775808)
                18446744073709551616 ltac:(lia)).
  lia.
Qed.

(** Reduction is a ring morphism: inner reductions can be dropped. *)
Lemma wrap64_add_l (a b : Z) : wrap64 (wrap64 a + b) = wrap64 (a + b).
Proof.
  rewrite !wrap64_val.
  replace ((a + 9223372036854775808) mod 18446744073709551616
           - 9223372036854775808 + b + 9223372036854775808)
    with ((a + 9223372036854775808) mod 18446744073709551616 + b) by lia.
  rewrite Zplus_mod_idemp_l. f_equal. f_equal. lia.
Qed.

Lemma wrap64_add_r (a b : Z) : wrap64 (a + wrap64 b) = wrap64 (a + b).
Proof.
  rewrite (Z.add_comm a (wrap64 b)), wrap64_add_l, Z.add_comm. reflexivity.
Qed.

Lemma wrap64_sub_l (a b : Z) : wrap64 (wrap64 a - b) = wrap64 (a - b).
Proof.
  unfold Z.sub. apply wrap64_add_l.
Qed.

Lemma wrap64_sub_r (a b : Z) : wrap64 (a - wrap64 b) = wrap64 (a - b).
Proof.
  rewrite !wrap64_val.
  replace (a - ((b + 9223372036854775808) mod 18446744073709551616
                - 9223372036854775808) + 9223372036854775808)
    with ((a + 18446744073709551616)
          - (b + 9223372036854775808) mod 18446744073709551616) by lia.
  rewrite Zminus_mod_idemp_r. f_equal. f_equal. lia.
Qed.

Lemma wrap64_sub_sub (a b c : Z) :
  wrap64 (a - wrap64 b - c) = wrap64 (a - b - c).
Proof.
  rewrite <- (wrap64_sub_l (a - wrap64 b) c), wrap64_sub_r, wrap64_sub_l.
  reflexivity.
Qed.

Lemma add_small (a b : Z) : in_range (a + b) -> a +64 b = a + b.
Proof. apply wrap64_small. Qed.

Lemma sub_small (a b : Z) : in_range (a - b) -> a -64 b = a - b.
Proof. apply wrap64_small. Qed.

End Int64Facts.

(** Drops the inner reductions of a machine expression. *)
Ltac norm64 :=
  unfold Int64.add, Int64.sub;
  repeat (rewrite Int64Facts.wrap64_add_l
          || rewrite Int64Facts.wrap64_add_r
          || rewrite Int64Facts.wrap64_sub_l
          || rewrite Int64Facts.wrap64_sub_r
          || rewrite Int64Facts.wrap64_sub_sub).

(** Then drops the outer ones whose mathematical value is in range. *)
Ltac unwrap64 :=
  norm64;
  repeat match goal with
    | |- context [Int64.wrap64 ?z] =>
        rewrite (Int64Facts.wrap64_small z)
          by (unfold Int64.in_range;
              rewrite Int64Facts.min_int_val, Int64Facts.max_int_val; lia)
    end.

(** ** Range validation and planning *)

Module GetFacts.

Import GoStrings Get.

Local Ltac int64_bounds :=
  unfold Int64.in_range in *;
  rewrite ?Int64Facts.min_int_val, ?Int64Facts.max_int_val in *.

Lemma SizeNum_populate (parsed : string * Z) (f : File) :
  SizeNum (populate parsed f)
  = if snd parsed >? 0 then snd parsed else sumBytes (Segments f).
Proof.
  destruct parsed as [name size]. unfold populate. simpl.
  destruct (negb (String.eqb name "")); destruct (size >? 0); reflexivity.
Qed.

Lemma Segments_populate (parsed : string * Z) (f : File) :
  Segments (populate parsed f) = Segments f.
Proof.
  destruct parsed as [name size]. unfold populate.
  destruct (negb (String.eqb name "")); destruct (size >? 0); reflexivity.
Qed.

(** The validation accepts or rejects on the four comparisons of the
    source, taken on the end offset after its default. *)
Lemma checkRange_cases (file : File) (start end_ : Z) :
  let e := defaultEnd file end_ in
  (checkRange file start end_
     = inl (RangeOutOfBounds start e (SizeNum file))
   /\ (e >= SizeNum file \/ start > e \/ start < 0 \/ e < 0))
  \/ (checkRange file start end_ = inr (start, e)
      /\ 0 <= start <= e /\ e < SizeNum file).
Proof.
  intro e. unfold checkRange. fold e.
  destruct (start <? 0) eqn:H1; simpl.
  { left. split; [reflexivity|]. apply Z.ltb_lt in H1. lia. }
  destruct (e <? 0) eqn:H2; simpl.
  { left. split; [reflexivity|]. apply Z.ltb_lt in H2. lia. }
  destruct (start >? e) eqn:H3; simpl.
  { left. split; [reflexivity|]. rewrite Z.gtb_ltb in H3.
    apply Z.ltb_lt in H3. lia. }
  destruct (e >=? SizeNum file) eqn:H4.
  { left. split; [reflexivity|]. rewrite Z.geb_leb in H4.
    apply Z.leb_le in H4. lia. }
  right. split; [reflexivity|].
  apply Z.ltb_ge in H1, H2. rewrite Z.gtb_ltb in H3. apply Z.ltb_ge in H3.
  rewrite Z.geb_leb in H4. apply Z.leb_gt in H4. lia.
Qed.

(** C2, amended: the size the validation uses is the size scanned from
    the subject when that is positive and the (wrapping) sum of the
    declared segment sizes otherwise; against that size, and with the end
    offset after its default, the validation fails exactly when the end
    is at or past the size, the start is past the end, or a bound is
    negative. *)
Theorem checkRange_fails_iff :
  forall (parsed : string * Z) (f : File) (start end_ : Z),
    let file := populate parsed f in
    let e := defaultEnd file end_ in
    SizeNum file
    = (if snd parsed >? 0 then snd parsed else sumBytes (Segments f))
    /\ ((exists err, checkRange file start end_ = inl err)
        <-> (e >= SizeNum file \/ start > e \/ start < 0 \/ e < 0))
    /\ (checkRange file start end_ = inr (start, e)
        <-> ~ (e >= SizeNum file \/ start > e \/ start < 0 \/ e < 0)).
Proof.
  intros parsed f start end_ file e.
  split; [apply SizeNum_populate|].
  destruct (checkRange_cases file start end_) as [[Hc Hr] | [Hc Hr]];
    fold e in Hc, Hr; rewrite Hc.
  - split; split; intro H.
    + exact Hr.
    + eexists. reflexivity.
    + discriminate.
    + contradiction.
  - split; split; intro H.
    + destruct H as [err H]. discriminate.
    + lia.
    + lia.
    + reflexivity.
Qed.

(** C2, as stated, fails: a file whose subject carries the size 300 and
    whose two segments declare 100 bytes each accepts the range 0-250,
    whose end is past the sum of the declared sizes. *)
Lemma checkRange_not_sum_of_sizes :
  ~ (forall (parsed : string * Z) (f : File) (start end_ : Z),
        (exists err, checkRange (populate parsed f) start end_ = inl err)
        <-> (end_ >= sumBytes (Segments f) \/ start > end_
             \/ start < 0 \/ end_ < 0)).
Proof.
  intro H.
  specialize
    (H ("a.bin"%string, 300)
       (mkFile (quote ++ "a.bin" ++ quote ++ " yEnc (1/2) 300")%string
          [mkSegment 100 1 "p1@x"; mkSegment 100 2 "p2@x"] "" 0)
       0 250).
  destruct H as [_ H].
  destruct H as [err H]; [left; vm_compute; discriminate|].
  vm_compute in H. discriminate.
Qed.

(** The request 0-0 on a non-empty file is the whole file. *)
Lemma checkRange_zero_zero (file : File) :
  Int64.in_range (SizeNum file) ->
  0 < SizeNum file ->
  checkRange file 0 0 = inr (0, SizeNum file - 1).
Proof.
  intros Hsz Hpos.
  assert (Hd0 : defaultEnd file 0 = SizeNum file -64 1) by reflexivity.
  destruct (checkRange_cases file 0 0) as [[Hc Hr] | [Hc Hr]];
    rewrite Hd0 in Hc, Hr; revert Hc Hr; int64_bounds; unwrap64;
    intros Hc Hr; [lia | exact Hc].
Qed.



(** *** The planner against its specification *)

Lemma planLoop_cons (seg : Segment) (rest : list Segment)
  (start end_ : Z) (pieces : list piece) (offset : Z) :
  planLoop (seg :: rest) start end_ pieces offset
  = if offset +64 Bytes seg -64 1 <? start
    then planLoop rest start end_ pieces (offset +64 Bytes seg)
    else
      let s := if (List.length pieces =? 0)%nat
               then start -64 offset else 0 in
      if offset +64 Bytes seg -64 1 >=? end_
      then pieces ++
             [mkPiece (ID seg) s
                (Bytes seg -64 (offset +64 Bytes seg -64 1 -64 end_) -64 1)]
      else planLoop rest start end_
             (pieces ++ [mkPiece (ID seg) s (Bytes seg -64 1)])
             (offset +64 Bytes seg).
Proof.
  cbn [planLoop].
  destruct (offset +64 Bytes seg -64 1 <? start); [reflexivity|].
  destruct (List.length pieces =? 0)%nat; reflexivity.
Qed.


Lemma totalBytes_nonneg (segs : list Segment) :
  nonneg segs -> 0 <= totalBytes segs.
Proof.
  induction 1 as [|seg segs Hs _ IH]; simpl; lia.
Qed.

Section PlanRefinement.

Variables start end_ : Z.
Hypothesis Hstart : 0 <= start <= end_.
Hypothesis Hend : end_ <= Int64.max_int.

(** Once a piece has been produced no segment is skipped: each one
    gives a piece from its first byte, up to the one that reaches
    [end_]. *)
Lemma planLoop_emit (segs : list Segment) :
  forall (pieces : list piece) (offset : Z),
    pieces <> [] ->
    nonneg segs ->
    start < offset ->
    offset + totalBytes segs <= Int64.max_int ->
    planLoop segs start end_ pieces offset
    = pieces ++ map (window start end_ false)
                  (takeThrough end_ (layout segs offset)).
Proof.
  rewrite Int64Facts.max_int_val in Hend.
  induction segs as [|seg rest IH];
    intros pieces offset Hne Hpos Hoff Htot.
  - simpl. rewrite app_nil_r. reflexivity.
  - inversion Hpos as [|? ? Hseg Hrest]; subst.
    pose proof (totalBytes_nonneg rest Hrest) as Hnn.
    simpl in Htot. rewrite Int64Facts.max_int_val in Htot.
    rewrite planLoop_cons.
    replace (List.length pieces =? 0)%nat with false
      by (destruct pieces; [contradiction | reflexivity]).
    cbv zeta. unwrap64.
    destruct (Z.ltb_spec (offset + Bytes seg - 1) start) as [Hlt | Hge];
      [lia|].
    simpl layout. cbn [takeThrough]. unfold absEnd at 1. cbn [fst snd].
    destruct (offset + Bytes seg - 1 >=? end_) eqn:Hlast.
    + simpl. unfold window, absEnd. cbn [fst snd]. rewrite Hlast.
      do 3 f_equal. lia.
    + rewrite IH; try assumption.
      * rewrite <- app_assoc. simpl. unfold window at 2, absEnd.
        cbn [fst snd]. rewrite Hlast. reflexivity.
      * intro H. destruct pieces; discriminate.
      * lia.
      * rewrite Int64Facts.max_int_val. lia.
Qed.

(** Before the first piece the segments that end before [start] are
    skipped; the first one that does not gives the first piece. *)
Lemma planLoop_skip (segs : list Segment) :
  forall offset : Z,
    nonneg segs ->
    0 <= offset <= start ->
    offset + totalBytes segs <= Int64.max_int ->
    planLoop segs start end_ [] offset
    = match takeThrough end_ (dropBefore start (layout segs offset)) with
      | [] => []
      | x :: rest =>
          window start end_ true x
          :: map (window start end_ false) rest
      end.
Proof.
  pose proof Hend as Hend'. rewrite Int64Facts.max_int_val in Hend'.
  induction segs as [|seg rest IH]; intros offset Hpos Hoff Htot.
  - reflexivity.
  - inversion Hpos as [|? ? Hseg Hrest]; subst.
    pose proof (totalBytes_nonneg rest Hrest) as Hnn.
    simpl in Htot. pose proof Htot as Htot'.
    rewrite Int64Facts.max_int_val in Htot'.
    rewrite planLoop_cons.
    cbn [List.length Nat.eqb]. cbv zeta. unwrap64.
    simpl layout. cbn [dropBefore]. unfold absEnd at 1. cbn [fst snd].
    destruct (Z.ltb_spec (offset + Bytes seg - 1) start) as [Hlt | Hge].
    + apply IH; [assumption | lia | lia].
    + cbn [takeThrough]. unfold absEnd at 1. cbn [fst snd].
      destruct (offset + Bytes seg - 1 >=? end_) eqn:Hlast.
      * simpl. unfold window, absEnd. cbn [fst snd]. rewrite Hlast.
        do 2 f_equal. lia.
      * rewrite planLoop_emit; try assumption.
        -- simpl. unfold window, absEnd. cbn [fst snd].
           rewrite Hlast. reflexivity.
        -- discriminate.
        -- lia.
        -- lia.
Qed.

End PlanRefinement.

(** C3: on a list of non-negative declared sizes whose sum fits [int64],
    and for a range with [0 <= start <= end], the planner of [getCmd]
    returns what the specification describes: the segments laid out by
    their running offset, those that end strictly before [start] skipped,
    the first piece starting at [start - offsetAtSegmentStart], every
    piece ending at [declaredSize - 1] but the one whose end reaches
    [end], which ends at [declaredSize - 1 - (absoluteSegmentEnd - end)]
    and is the last.  For sizes 100, 100 the range 0-199 gives
    (seg0, 0, 99) and (seg1, 0, 99), and the range 150-180 gives
    (seg1, 50, 80). *)
Theorem plan_meets_spec :
  forall (segs : list Segment) (start end_ : Z),
    nonneg segs ->
    totalBytes segs <= Int64.max_int ->
    0 <= start <= end_ ->
    end_ <= Int64.max_int ->
    plan segs start end_ = plan_spec segs start end_
    /\ (forall id0 id1 n0 n1,
           plan [mkSegment 100 n0 id0; mkSegment 100 n1 id1] 0 199
           = [mkPiece id0 0 99; mkPiece id1 0 99]
           /\ plan [mkSegment 100 n0 id0; mkSegment 100 n1 id1] 150 180
              = [mkPiece id1 50 80]).
Proof.
  intros segs start end_ Hpos Htot Hstart Hend. split.
  - unfold plan, plan_spec.
    apply planLoop_skip; try assumption; lia.
  - intros. split; vm_compute; reflexivity.
Qed.

(** The theorem at sizes 100, 50, 100 and the range 120-220. *)
Lemma plan_meets_spec_witness :
  let segs :=
    [mkSegment 100 1 "p1@x"; mkSegment 50 2 "p2@x"; mkSegment 100 3 "p3@x"] in
  plan segs 120 220 = plan_spec segs 120 220
  /\ plan_spec segs 120 220 = [mkPiece "p2@x" 20 49; mkPiece "p3@x" 0 70].
Proof.
  intro segs.
  assert (Hpos : nonneg segs).
  { unfold nonneg, segs. repeat apply Forall_cons; try apply Forall_nil;
      simpl; lia. }
  assert (Htot : totalBytes segs <= Int64.max_int)
    by (vm_compute; discriminate).
  assert (Hr : 0 <= 120 <= 220) by lia.
  assert (He : 220 <= Int64.max_int) by (vm_compute; discriminate).
  split.
  - exact (proj1 (plan_meets_spec segs 120 220 Hpos Htot Hr He)).
  - vm_compute. reflexivity.
Defined.

(** *** Pieces are windows of their segments *)


Lemma subseq_nil_l (A : Type) (l : list A) : subseq [] l.
Proof. induction l; constructor; assumption. Qed.

Section PlanWindows.

Variables s e : Z.
Hypothesis Hse : 0 <= s <= e.
Hypothesis He : e <= Int64.max_int.

(** The invariant of the planning loop, wrap-around included: the
    offset never passes [e], and never passes [s] before the first
    piece; every piece appended is a window of the segment it is
    made from. *)
Lemma planLoop_within (segs : list Segment) :
  forall (pieces : list piece) (offset : Z) (done : list Segment),
    positive segs ->
    Int64.in_range offset ->
    (pieces = [] -> offset <= s) ->
    offset <= e ->
    Forall2 within done pieces ->
    exists more,
      subseq more segs
      /\ Forall2 within (done ++ more) (planLoop segs s e pieces offset).
Proof.
  rewrite Int64Facts.max_int_val in He.
  induction segs as [|seg rest IH];
    intros pieces offset done Hpos Hoff Hfirst Hle Hdone.
  - exists []. split; [constructor|]. rewrite app_nil_r. exact Hdone.
  - inversion Hpos as [|? ? Hseg Hrest]; subst.
    unfold Int64.in_range in Hoff.
    rewrite Int64Facts.min_int_val, Int64Facts.max_int_val in Hoff.
    rewrite Int64Facts.max_int_val in Hseg.
    rewrite planLoop_cons. cbv zeta. norm64.
    destruct (Z_le_gt_dec (offset + Bytes seg - 1) 9223372036854775807)
      as [Hfit | Hover].
    + rewrite (Int64Facts.wrap64_small (offset + Bytes seg - 1))
        by (int64_bounds; lia).
      destruct (Z.ltb_spec (offset + Bytes seg - 1) s) as [Hlt | Hge].
      * (* the segment ends before the range *)
        rewrite (Int64Facts.wrap64_small (offset + Bytes seg))
          by (int64_bounds; lia).
        destruct (IH pieces (offset + Bytes seg) done) as (more & Hsub & Hall);
          try assumption; try (int64_bounds; lia).
        exists more. split; [apply subseq_skip; exact Hsub | exact Hall].
      * assert (Hs0 :
            (if (List.length pieces =? 0)%nat
             then Int64.wrap64 (s - offset) else 0)
            = if (List.length pieces =? 0)%nat then s - offset else 0).
        { destruct pieces as [|p0 pieces']; [|reflexivity]. simpl.
          specialize (Hfirst eq_refl).
          apply Int64Facts.wrap64_small. int64_bounds. lia. }
        rewrite Hs0.
        assert (Hs1 :
            0 <= (if (List.length pieces =? 0)%nat then s - offset else 0)
            /\ (if (List.length pieces =? 0)%nat then s - offset else 0)
               <= Z.min (Bytes seg - 1) (e - offset)).
        { destruct pieces as [|p0 pieces']; simpl.
          - specialize (Hfirst eq_refl). lia.
          - lia. }
        destruct (offset + Bytes seg - 1 >=? e) eqn:Hlast.
        -- (* the last piece *)
           rewrite Z.geb_leb in Hlast. apply Z.leb_le in Hlast.
           replace (Bytes seg - (offset + Bytes seg - 1 - e) - 1)
             with (e - offset) by lia.
           rewrite (Int64Facts.wrap64_small (e - offset))
             by (int64_bounds; lia).
           exists [seg]. split.
           ++ apply subseq_keep, subseq_nil_l.
           ++ apply Forall2_app; [exact Hdone|].
              constructor; [|constructor].
              unfold within. cbn [id start Get.end_].
              split; [reflexivity | lia].
        -- (* a piece to the end of its segment *)
           rewrite Z.geb_leb in Hlast. apply Z.leb_gt in Hlast.
           rewrite (Int64Facts.wrap64_small (Bytes seg - 1))
             by (int64_bounds; lia).
           rewrite (Int64Facts.wrap64_small (offset + Bytes seg))
             by (int64_bounds; lia).
           destruct (IH (pieces ++
                          [mkPiece (ID seg)
                             (if (List.length pieces =? 0)%nat
                              then s - offset else 0)
                             (Bytes seg - 1)])
                        (offset + Bytes seg) (done ++ [seg]))
             as (more & Hsub & Hall); try assumption;
             try (int64_bounds; lia).
           ++ intro Hnil. destruct pieces; discriminate.
           ++ apply Forall2_app; [exact Hdone|].
              constructor; [|constructor].
              unfold within. cbn [id start Get.end_].
              split; [reflexivity | lia].
           ++ exists (seg :: more). split.
              ** apply subseq_keep. exact Hsub.
              ** rewrite <- app_assoc in Hall. exact Hall.
    + (* the end of the segment wraps around *)
      rewrite (Int64Facts.wrap64_over (offset + Bytes seg - 1))
        by (rewrite Int64Facts.max_int_val;
            change (2 ^ 64) with 18446744073709551616; lia).
      change (2 ^ 64) with 18446744073709551616.
      destruct (Z.ltb_spec (offset + Bytes seg - 1 - 18446744073709551616) s)
        as [Hlt | Hge]; [|lia].
      pose proof (Int64Facts.wrap64_in_range (offset + Bytes seg)) as Hin.
      assert (Hw : Int64.wrap64 (offset + Bytes seg)
                   = offset + Bytes seg - 18446744073709551616).
      { apply Int64Facts.wrap64_over. rewrite Int64Facts.max_int_val.
        change (2 ^ 64) with 18446744073709551616. lia. }
      destruct (IH pieces (Int64.wrap64 (offset + Bytes seg)) done)
        as (more & Hsub & Hall); try assumption; try (rewrite Hw; lia).
      exists more. split; [apply subseq_skip; exact Hsub | exact Hall].
Qed.

End PlanWindows.

(** C8, amended: when every declared size is strictly positive, every
    piece the planner produces for a range the validation accepts is a
    window of the segment it is made from, with
    [0 <= intraStart <= intraEnd < declaredSize]; the pieces follow the
    order of the segments. *)
Theorem pieces_within_segments :
  forall (file : File) (start end_ s e : Z),
    positive (Segments file) ->
    Int64.in_range (SizeNum file) ->
    checkRange file start end_ = inr (s, e) ->
    exists segs,
      subseq segs (Segments file)
      /\ Forall2 within segs (plan (Segments file) s e).
Proof.
  intros file start end_ s e Hpos Hsz Hc.
  destruct (checkRange_cases file start end_) as [[Hc' _] | [Hc' Hr]];
    rewrite Hc' in Hc; [discriminate|].
  injection Hc as <- <-.
  unfold Int64.in_range in Hsz.
  destruct (planLoop_within start (defaultEnd file end_)
              ltac:(lia) ltac:(lia) (Segments file) [] 0 [])
    as (more & Hsub & Hall); try assumption; try lia.
  - int64_bounds. lia.
  - constructor.
  - exists more. split; assumption.
Qed.

(** The theorem at sizes 100, 50, 100 and the request 120-220. *)
Lemma pieces_within_segments_witness :
  let file :=
    mkFile ""
      [mkSegment 100 1 "p1@x"; mkSegment 50 2 "p2@x"; mkSegment 100 3 "p3@x"]
      "a.bin" 250 in
  exists segs,
    subseq segs (Segments file)
    /\ Forall2 within segs (plan (Segments file) 120 220).
Proof.
  intro file.
  apply (pieces_within_segments file 120 220 120 220).
  - unfold positive, file. simpl.
    repeat apply Forall_cons; try apply Forall_nil;
      simpl; rewrite Int64Facts.max_int_val; lia.
  - unfold Int64.in_range.
    rewrite Int64Facts.min_int_val, Int64Facts.max_int_val. simpl. lia.
  - vm_compute. reflexivity.
Defined.

(** C8, as stated, fails: with the declared sizes 100, 0, 100, all
    non-negative, the accepted range 0-199 gives the second segment the
    piece (0, -1), whose start is past its end. *)
Lemma empty_segment_piece :
  ~ (forall (file : File) (start end_ s e : Z),
        Forall (fun seg => 0 <= Bytes seg) (Segments file) ->
        checkRange file start end_ = inr (s, e) ->
        exists segs,
          subseq segs (Segments file)
          /\ Forall2 within segs (plan (Segments file) s e)).
Proof.
  intro H.
  pose (file := mkFile ""
                  [mkSegment 100 1 "p1@x"; mkSegment 0 2 "p2@x";
                   mkSegment 100 3 "p3@x"] "a.bin" 200).
  assert (Hp : plan (Segments file) 0 199
               = [mkPiece "p1@x" 0 99; mkPiece "p2@x" 0 (-1);
                  mkPiece "p3@x" 0 99])
    by (vm_compute; reflexivity).
  destruct (H file 0 199 0 199) as (segs & _ & Hall).
  - simpl. repeat apply Forall_cons; try apply Forall_nil; simpl; lia.
  - vm_compute. reflexivity.
  - rewrite Hp in Hall.
    inversion Hall as [|? ? ? ? _ Hall1]; subst.
    inversion Hall1 as [|? ? ? ? Hw _]; subst.
    destruct Hw as (_ & Hw & _). simpl in Hw. lia.
Qed.

End GetFacts.

(** ** ProtocolSession *)

Module NNTPFacts.

Import GoStrings NNTP.
Local Open Scope string_scope.
Local Open Scope list_scope.


Lemma readCount_app (ev1 ev2 : list event) :
  readCount (ev1 ++ ev2) = (readCount ev1 + readCount ev2)%nat.
Proof. unfold readCount. rewrite filter_app, length_app. reflexivity. Qed.

(** Reading a payload issues at least one read, whatever the peer
    delivers. *)
Lemma readCount_snoc_read (ev : list event) (r : event) :
  isRead r = true -> readCount (ev ++ [r]) = S (readCount ev).
Proof.
  intro H. rewrite readCount_app. unfold readCount at 2. simpl.
  rewrite H. simpl. lia.
Qed.

Lemma dotLoop_reads (inc : list rx) : forall ev v,
  let '(_, ev', _, _) := dotLoop inc ev v in
  (readCount ev < readCount ev')%nat.
Proof.
  induction inc as [|r inc IH]; intros ev v; simpl.
  - rewrite readCount_snoc_read by reflexivity. lia.
  - destruct r as [line | e].
    + destruct (HasPrefix line ".").
      * destruct (String.length line =? 1)%nat.
        -- rewrite readCount_snoc_read by reflexivity. lia.
        -- specialize (IH (ev ++ [Recv line]) (v ++ [tail line])).
           destruct (dotLoop inc (ev ++ [Recv line]) (v ++ [tail line]))
             as [[[rest ev'] v'] err].
           rewrite readCount_snoc_read in IH by reflexivity. lia.
      * specialize (IH (ev ++ [Recv line]) (v ++ [line])).
        destruct (dotLoop inc (ev ++ [Recv line]) (v ++ [line]))
          as [[[rest ev'] v'] err].
        rewrite readCount_snoc_read in IH by reflexivity. lia.
    + rewrite readCount_snoc_read by reflexivity. lia.
Qed.

(** What [Request] does on an open connection that delivers a status
    line, by the two cases of the source. *)
Lemma Request_open (c : NNTPClient) (method msgid line : string)
  (inc : list rx) :
  closed c = false -> werr c = None -> incoming c = Line line :: inc ->
  let c1 := mkClient false None inc
              (log c ++ [Sent (method ++ " " ++ msgid)%string; Recv line]) in
  let code := parseCode line in
  Request method msgid c
  = if ((200 <=? code) && (code <? 300))%Z && payloadMethod method
    then
      let '(rest, ev, v, err) := dotLoop inc [] [] in
      (mkClient false None rest (log c1 ++ ev),
       inr (code, line, match err with None => v | Some _ => [] end))
    else (c1, inr (code, line, [])).
Proof.
  destruct c as [cl we inc0 lg]. simpl. intros -> -> ->.
  unfold Request, bind, PrintfLine, flush, ReadLine, readLine, logged, ret.
  simpl. rewrite <- app_assoc. simpl.
  destruct ((200 <=? parseCode line) && (parseCode line <? 300))%Z;
    simpl; [|reflexivity].
  destruct (payloadMethod method); [|reflexivity].
  unfold ReadDotLines. simpl.
  destruct (dotLoop inc [] []) as [[[rest ev] v] err].
  destruct err; reflexivity.
Qed.

(** C6: on an open connection that delivers a status line, [Request]
    succeeds with the parsed code and the line; it goes on to read a
    dot-terminated payload exactly when the code is in the 2xx range and
    the method is BODY, HEAD or ARTICLE; a method that carries no
    payload, such as STAT, reads nothing after the status line; and when
    the payload read fails the result is still a success, with no
    payload. *)
Theorem Request_reads_payload_iff :
  forall (c : NNTPClient) (method msgid line : string) (inc : list rx),
    closed c = false ->
    werr c = None ->
    incoming c = Line line :: inc ->
    let code := parseCode line in
    let res := Request method msgid c in
    exists lines,
      snd res = inr (code, line, lines)
      /\ ((reads c + 1 < reads (fst res))%nat
          <-> ((200 <= code < 300)%Z /\ payloadMethod method = true))
      /\ (payloadMethod method = false ->
          incoming (fst res) = inc /\ lines = [])
      /\ (forall e, snd (dotLoop inc [] []) = Some e -> lines = [])
      /\ payloadMethod "STAT" = false.
Proof.
  intros c method msgid line inc Hcl Hw Hinc code res.
  unfold res. rewrite (Request_open c method msgid line inc Hcl Hw Hinc).
  fold code.
  assert (H2xx : ((200 <=? code) && (code <? 300))%Z = true
                 <-> (200 <= code < 300)%Z).
  { rewrite andb_true_iff, Z.leb_le, Z.ltb_lt. reflexivity. }
  destruct (((200 <=? code) && (code <? 300))%Z) eqn:Hcode; simpl.
  - destruct (payloadMethod method) eqn:Hpay.
    + pose proof (dotLoop_reads inc [] []) as Hreads.
      destruct (dotLoop inc [] []) as [[[rest ev] v] err] eqn:Hdot.
      exists (match err with None => v | Some _ => [] end).
      cbn [fst snd]. split; [reflexivity|]. split.
      { unfold reads, readCount in *. cbn [log].
        rewrite !filter_app, !length_app. simpl in *.
        split; [intros _; split; [apply H2xx|]; reflexivity | lia]. }
      split; [discriminate|].
      split; [|reflexivity].
      intros e He. simpl in He. subst err. reflexivity.
    + exists []. cbn [fst snd]. split; [reflexivity|]. split.
      { unfold reads, readCount. cbn [log]. rewrite filter_app, length_app. simpl.
        split; [lia | intros [_ H]; discriminate]. }
      split; [intros _; split; reflexivity|].
      split; reflexivity.
  - exists []. cbn [fst snd]. split; [reflexivity|]. split.
    { unfold reads, readCount. cbn [log]. rewrite filter_app, length_app. simpl.
      split; [lia|]. intros [H _]. apply H2xx in H. discriminate. }
    split; [intros _; split; reflexivity|].
    split; reflexivity.
Qed.

(** The theorem at a BODY request answered by 222 and a payload that
    breaks off, and at a STAT request answered by 223. *)
Lemma Request_reads_payload_iff_witness :
  snd (Request "BODY" "<m1>"
         (connected [Line "222 0 <m1> body"; Line "abc"; Fail ErrTimeout]))
  = inr (222%Z, "222 0 <m1> body", [])
  /\ incoming (fst (Request "STAT" "<m1>"
                      (connected [Line "223 0 <m1>"; Line "next"])))
     = [Line "next"].
Proof.
  split.
  - destruct (Request_reads_payload_iff
                (connected [Line "222 0 <m1> body"; Line "abc";
                            Fail ErrTimeout])
                "BODY" "<m1>" "222 0 <m1> body"
                [Line "abc"; Fail ErrTimeout] eq_refl eq_refl eq_refl)
      as (lines & Hres & _ & _ & Hfail & _).
    rewrite Hres, (Hfail ErrTimeout eq_refl). reflexivity.
  - destruct (Request_reads_payload_iff
                (connected [Line "223 0 <m1>"; Line "next"])
                "STAT" "<m1>" "223 0 <m1>" [Line "next"]
                eq_refl eq_refl eq_refl)
      as (lines & _ & _ & Hstat & _).
    apply Hstat. reflexivity.
Defined.

(** *** Authentication *)

Lemma send_open (c : NNTPClient) (line : string) :
  closed c = false -> werr c = None ->
  PrintfLine line c
  = (mkClient false None (incoming c) (log c ++ [Sent line]), inr tt).
Proof.
  destruct c as [cl we inc lg]. simpl. intros -> ->. reflexivity.
Qed.

(** C7: [Auth] with an empty user name does nothing and succeeds.
    Otherwise, on an open connection, it sends the user name; when the
    answer asks for the password (381) it sends the password and
    succeeds exactly when the final answer is an acceptance (281),
    failing with [AuthRejected] otherwise; when the first answer is
    already an acceptance it succeeds and no password is sent; any other
    first answer is an error. *)
Theorem Auth_handshake :
  forall (c : NNTPClient) (username password l1 : string) (rest : list rx),
    closed c = false ->
    werr c = None ->
    username <> "" ->
    incoming c = Line l1 :: rest ->
    let user := Sent ("AUTHINFO USER " ++ username)%string in
    let pass := Sent ("AUTHINFO PASS " ++ password)%string in
    Auth "" password c = (c, inr tt)
    /\ (HasPrefix l1 "381" = true ->
        forall l2 rest',
          rest = Line l2 :: rest' ->
          Auth username password c
          = (mkClient false None rest'
               (log c ++ [user; Recv l1; pass; Recv l2]),
             if HasPrefix l2 "281" then inr tt
             else inl (AuthRejected l2)))
    /\ (HasPrefix l1 "381" = false ->
        Auth username password c
        = (mkClient false None rest (log c ++ [user; Recv l1]),
           if HasPrefix l1 "281" then inr tt
           else inl (AuthProtocolError l1))).
Proof.
  intros c username password l1 rest Hcl Hw Hu Hinc user pass.
  split; [reflexivity|].
  destruct c as [cl we inc lg]. simpl in Hcl, Hw, Hinc. subst cl we inc.
  apply String.eqb_neq in Hu.
  unfold Auth. rewrite Hu.
  unfold bind, PrintfLine, flush, ReadLine, readLine, logged, ret, fail.
  simpl. split.
  - intros H381 l2 rest' ->. rewrite H381. simpl.
    rewrite <- !app_assoc. simpl.
    destruct (HasPrefix l2 "281"); reflexivity.
  - intros H381. rewrite H381. rewrite <- !app_assoc. simpl.
    destruct (HasPrefix l1 "281"); reflexivity.
Qed.

(** The theorem at a server that accepts the user name at once, and at
    one that asks for the password and then rejects it. *)
Lemma Auth_handshake_witness :
  Auth "u" "p" (connected [Line "281 ok"])
  = (mkClient false None [] [Sent "AUTHINFO USER u"; Recv "281 ok"], inr tt)
  /\ Auth "u" "p" (connected [Line "381 more"; Line "481 no"])
     = (mkClient false None []
          [Sent "AUTHINFO USER u"; Recv "381 more";
           Sent "AUTHINFO PASS p"; Recv "481 no"],
        inl (AuthRejected "481 no")).
Proof.
  split.
  - apply (proj2 (proj2
      (Auth_handshake (connected [Line "281 ok"]) "u" "p" "281 ok" []
         eq_refl eq_refl ltac:(discriminate) eq_refl))).
    reflexivity.
  - apply (proj1 (proj2
      (Auth_handshake (connected [Line "381 more"; Line "481 no"])
         "u" "p" "381 more" [Line "481 no"]
         eq_refl eq_refl ltac:(discriminate) eq_refl))
      eq_refl "481 no" [] eq_refl).
Defined.

(** A failed read of either answer is passed on. *)
Lemma Auth_read_error (c : NNTPClient) (username password : string)
  (e : ioerr) (rest : list rx) :
  closed c = false -> werr c = None -> username <> "" ->
  incoming c = Fail e :: rest ->
  snd (Auth username password c) = inl (IOError e).
Proof.
  destruct c as [cl we inc lg]. simpl. intros -> -> Hu ->.
  apply String.eqb_neq in Hu. unfold Auth. rewrite Hu. reflexivity.
Qed.

(** *** Termination *)

Lemma Quit_cases (c : NNTPClient) :
  Quit c
  = if closed c
    then (mkClient true
            (match werr c with Some e => Some e | None => Some ErrClosed end)
            (incoming c) (log c ++ [SendFail "QUIT"; CloseFail]),
          inl (IOError ErrClosed))
    else (mkClient true (werr c) (incoming c)
            (log c ++ [match werr c with
                       | Some _ => SendFail "QUIT"
                       | None => Sent "QUIT"
                       end; Closed]),
          inr tt).
Proof.
  destruct c as [cl we inc lg].
  unfold Quit, bind, ignore, PrintfLine, flush, Close, logged. simpl.
  destruct we as [e|]; destruct cl; simpl;
    rewrite <- ?app_assoc; reflexivity.
Qed.

(** C9, amended: [Quit] sends the termination command on a best effort,
    its errors ignored, and leaves the transport closed on every call;
    what it returns is what closing the transport returns.  On an open
    session the command is delivered and the call succeeds; a second
    call on the same session delivers nothing and returns the
    transport's error for a connection that is already closed. *)
Theorem Quit_closes_once :
  forall c : NNTPClient,
    closed c = false ->
    werr c = None ->
    let first := Quit c in
    let second := Quit (fst first) in
    first = (mkClient true None (incoming c)
               (log c ++ [Sent "QUIT"; Closed]), inr tt)
    /\ snd second = inl (IOError ErrClosed)
    /\ closed (fst second) = true
    /\ incoming (fst second) = incoming c
    /\ log (fst second) = log (fst first) ++ [SendFail "QUIT"; CloseFail]
    /\ (forall c0, closed (fst (Quit c0)) = true)
    /\ (forall c0, snd (Quit c0)
                   = if closed c0 then inl (IOError ErrClosed) else inr tt).
Proof.
  intros c Hcl Hw first second.
  assert (H1 : first = (mkClient true None (incoming c)
                          (log c ++ [Sent "QUIT"; Closed]), inr tt)).
  { unfold first. rewrite Quit_cases, Hcl, Hw. reflexivity. }
  split; [exact H1|].
  unfold second. rewrite H1, Quit_cases. simpl.
  repeat split.
  - intro c0. rewrite Quit_cases. destruct (closed c0); reflexivity.
  - intro c0. rewrite Quit_cases. destruct (closed c0); reflexivity.
Qed.

(** The theorem at a fresh connection. *)
Lemma Quit_closes_once_witness :
  Quit (connected [])
  = (mkClient true None [] [Sent "QUIT"; Closed], inr tt)
  /\ snd (Quit (fst (Quit (connected [])))) = inl (IOError ErrClosed).
Proof.
  destruct (Quit_closes_once (connected []) eq_refl eq_refl)
    as (H1 & H2 & _).
  split; [exact H1 | exact H2].
Defined.

(** C9, as stated, fails: the second [Quit] on a session does not
    succeed as the first did. *)
Lemma Quit_not_idempotent :
  ~ (forall c : NNTPClient,
        snd (Quit (fst (Quit c))) = snd (Quit c)).
Proof.
  intro H. specialize (H (connected [])). vm_compute in H. discriminate.
Qed.

End NNTPFacts.

(** ** RangeAssembler *)

Module AssemblerFacts.

Import GoStrings NNTP Get.
Local Open Scope string_scope.
Local Open Scope list_scope.
Local Open Scope Z_scope.

(** C1 on the code: a segment of four bytes, 04 04 00 01, whose encoded
    line [..*+] starts with two dots and travels dot-stuffed as [...*+].
    The transport reader removes the stuffing and returns [..*+], which
    decodes to the four bytes; the assembly loop removes a second dot and
    writes three bytes for the full range of the file. *)
Theorem fetch_range_drops_a_byte :
  let file := mkFile (quote ++ "a.bin" ++ quote ++ " yEnc (1/1)")%string
                [mkSegment 4 1 "<m1>"] "a.bin" 4 in
  let peer := [Line "222 0 <m1> body";
               Line "=ybegin line=128 size=4 name=a.bin";
               Line "...*+";
               Line "=yend size=4";
               Line "."] in
  snd (Body "<m1>" (connected peer))
  = inr ["=ybegin line=128 size=4 name=a.bin"; "..*+"; "=yend size=4"]
  /\ content ["=ybegin line=128 size=4 name=a.bin"; "..*+"; "=yend size=4"]
     = [x04; x04; x00; x01]
  /\ checkRange file 0 0 = inr (0, 3)
  /\ snd (fetch_range file 0 0 (connected peer)) = ([x04; x00; x01], None).
Proof.
  repeat split; vm_compute; reflexivity.
Qed.

(** *** The assembler on plain payloads *)

Lemma lineLoop_cons (pc : piece) (line : string) (rest : list string)
  (segWritten : Z) (w : list byte) :
  lineLoop pc (line :: rest) segWritten w
  = if isMarkup line then lineLoop pc rest segWritten w
    else
      let line' := if HasPrefix line ".." then tail line else line in
      match YEnc.decodeYEncLine (list_byte_of_string line') with
      | inl e => (w, Some e)
      | inr decoded =>
          if (List.length decoded =? 0)%nat
          then lineLoop pc rest segWritten w
          else
            let chunkLen := Z.of_nat (List.length decoded) in
            let startOff :=
              if start pc >? segWritten
              then start pc -64 segWritten else 0 in
            let endOff :=
              if end_ pc <? segWritten +64 chunkLen -64 1
              then end_ pc -64 segWritten else chunkLen -64 1 in
            let w' :=
              if startOff <=? endOff
              then w ++ slice decoded startOff (endOff +64 1)
              else w in
            if segWritten +64 chunkLen >? end_ pc then (w', None)
            else lineLoop pc rest (segWritten +64 chunkLen) w'
      end.
Proof. reflexivity. Qed.

Lemma content_cons (line : string) (rest : list string) :
  content (line :: rest)
  = if isMarkup line then content rest
    else
      match YEnc.decodeYEncLine (list_byte_of_string line) with
      | inr decoded => decoded ++ content rest
      | inl _ => content rest
      end.
Proof. reflexivity. Qed.

Lemma slice_all (decoded : list byte) :
  slice decoded 0 (Z.of_nat (List.length decoded)) = decoded.
Proof.
  unfold slice. rewrite Z.sub_0_r, Nat2Z.id. simpl. apply firstn_all.
Qed.

(** For a piece that is the whole of a segment of [n] bytes, the line loop
    appends the decoded content of plain lines, chunk by chunk. *)
Lemma lineLoop_whole (id0 : string) (n : Z) (lines : list string) :
  forall (segWritten : Z) (w : list byte),
    Forall plainLine lines ->
    0 <= segWritten ->
    segWritten + Z.of_nat (List.length (content lines)) = n ->
    n <= Int64.max_int ->
    lineLoop (mkPiece id0 0 (n - 1)) lines segWritten w
    = (w ++ content lines, None).
Proof.
  induction lines as [|line rest IH]; intros sw w Hplain Hsw Hn Hmax.
  - simpl. rewrite app_nil_r. reflexivity.
  - apply Forall_cons_iff in Hplain. destruct Hplain as [Hline Hrest].
    pose proof Hmax as Hmax'. rewrite Int64Facts.max_int_val in Hmax'.
    rewrite lineLoop_cons. rewrite content_cons. rewrite content_cons in Hn.
    destruct (isMarkup line) eqn:Hm.
    { apply IH; assumption. }
    destruct Hline as [Hm' | (Hdots & d & Hd)]; [congruence|].
    rewrite Hdots. cbv zeta. rewrite Hd. rewrite Hd in Hn.
    rewrite length_app, Nat2Z.inj_add in Hn.
    destruct (List.length d =? 0)%nat eqn:Hlen.
    { apply Nat.eqb_eq in Hlen.
      destruct d; [|discriminate]. simpl. simpl in Hn.
      apply IH; assumption. }
    apply Nat.eqb_neq in Hlen.
    cbn [start end_].
    unwrap64.
    replace (0 >? sw) with false
      by (symmetry; rewrite Z.gtb_ltb; apply Z.ltb_ge; lia).
    replace (n - 1 <? sw + Z.of_nat (List.length d) - 1) with false
      by (symmetry; apply Z.ltb_ge; lia).
    replace (0 <=? Z.of_nat (List.length d) - 1) with true
      by (symmetry; apply Z.leb_le; lia).
    unwrap64.
    replace (Z.of_nat (List.length d) - 1 + 1)
      with (Z.of_nat (List.length d)) by lia.
    rewrite slice_all.
    destruct (sw + Z.of_nat (List.length d) >? n - 1) eqn:Hbreak;
      rewrite Z.gtb_ltb in Hbreak.
    + apply Z.ltb_lt in Hbreak.
      assert (Hnil : content rest = []).
      { destruct (content rest); [reflexivity | simpl in Hn; lia]. }
      rewrite Hnil, app_nil_r. reflexivity.
    + apply Z.ltb_ge in Hbreak.
      rewrite IH; try assumption; try lia.
      rewrite <- app_assoc. reflexivity.
Qed.

Lemma stuff_cases (l : string) :
  (HasPrefix (stuff l) "." = true
   /\ (String.length (stuff l) =? 1)%nat = false
   /\ tail (stuff l) = l)
  \/ (HasPrefix (stuff l) "." = false /\ stuff l = l).
Proof.
  unfold stuff. destruct (HasPrefix l ".") eqn:Hl.
  - left. destruct l as [|a l']; [discriminate|].
    repeat split; reflexivity.
  - right. split; [exact Hl | reflexivity].
Qed.

(** The transport reader undoes the sender's dot-stuffing. *)
Lemma dotLoop_stuffed (lines : list string) :
  forall (ev : list event) (v : list string) (rest : list rx),
  exists ev',
    dotLoop (map (fun l => Line (stuff l)) lines ++ Line "." :: rest) ev v
    = (rest, ev', v ++ lines, None).
Proof.
  induction lines as [|l lines IH]; intros ev v rest.
  - exists (ev ++ [Recv "."]). simpl. rewrite app_nil_r. reflexivity.
  - cbn [map app dotLoop].
    destruct (stuff_cases l) as [(Hp & Hlen & Htl) | (Hp & Hst)];
      rewrite Hp.
    + rewrite Hlen, Htl.
      destruct (IH (ev ++ [Recv (stuff l)]) (v ++ [l]) rest) as [ev' Hdot].
      exists ev'. rewrite Hdot, <- app_assoc. reflexivity.
    + rewrite Hst.
      destruct (IH (ev ++ [Recv l]) (v ++ [l]) rest) as [ev' Hdot].
      exists ev'. rewrite Hdot, <- app_assoc. reflexivity.
Qed.

(** A BODY request answered by an exchange returns its payload lines and
    leaves the connection at the next exchange. *)
Lemma Body_exchange (c : NNTPClient) (msgid : string)
  (ex : string * list string) (rest : list rx) :
  closed c = false -> werr c = None ->
  incoming c = exchange ex ++ rest ->
  200 <= parseCode (fst ex) < 300 ->
  exists lg,
    Body msgid c = (mkClient false None rest lg, inr (snd ex)).
Proof.
  intros Hcl Hw Hinc Hcode.
  unfold exchange in Hinc. simpl in Hinc. rewrite <- app_assoc in Hinc.
  simpl in Hinc.
  unfold Body, bind.
  rewrite (NNTPFacts.Request_open c "BODY" msgid (fst ex) _ Hcl Hw Hinc).
  cbv zeta.
  replace ((200 <=? parseCode (fst ex)) && (parseCode (fst ex) <? 300))
    with true
    by (symmetry; apply andb_true_iff; split;
        [apply Z.leb_le | apply Z.ltb_lt]; lia).
  change (payloadMethod "BODY") with true. cbn [andb].
  destruct (dotLoop_stuffed (snd ex) [] [] rest) as [ev' Hdot].
  rewrite Hdot. simpl. eexists. reflexivity.
Qed.

Lemma totalBytes_positive (segs : list Segment) :
  positive segs -> segs <> [] -> 0 < totalBytes segs.
Proof.
  intros Hpos Hne. destruct Hpos as [|seg rest Hseg Hrest]; [contradiction|].
  simpl. assert (0 <= totalBytes rest).
  { apply GetFacts.totalBytes_nonneg. unfold nonneg.
    eapply Forall_impl; [|exact Hrest]. simpl. intros; lia. }
  lia.
Qed.

(** The plan for the whole file is every segment, whole. *)
Lemma planLoop_whole (segs : list Segment) :
  forall (pieces : list piece) (offset : Z),
    positive segs -> segs <> [] ->
    0 <= offset ->
    (pieces = [] -> offset = 0) ->
    offset + totalBytes segs <= Int64.max_int ->
    planLoop segs 0 (offset + totalBytes segs - 1) pieces offset
    = pieces ++ map whole segs.
Proof.
  induction segs as [|seg rest IH];
    intros pieces offset Hpos Hne Hoff Hfirst Hmax; [contradiction|].
  apply Forall_cons_iff in Hpos. destruct Hpos as [Hseg Hrest].
  rewrite Int64Facts.max_int_val in Hseg, Hmax. simpl in Hmax.
  rewrite GetFacts.planLoop_cons. cbv zeta.
  assert (Hs : (if (List.length pieces =? 0)%nat then 0 -64 offset else 0) = 0).
  { destruct pieces; [|reflexivity]. rewrite (Hfirst eq_refl). reflexivity. }
  rewrite Hs.
  change (totalBytes (seg :: rest)) with (Bytes seg + totalBytes rest).
  destruct rest as [|seg' rest'].
  - change (totalBytes []) with 0 in *. unwrap64.
    replace (offset + Bytes seg - 1 <? 0) with false
      by (symmetry; apply Z.ltb_ge; lia).
    replace (offset + Bytes seg - 1 >=? offset + (Bytes seg + 0) - 1)
      with true by (symmetry; rewrite Z.geb_leb; apply Z.leb_le; lia).
    unfold whole. simpl. do 3 f_equal. lia.
  - assert (Htot : 0 < totalBytes (seg' :: rest'))
      by (apply totalBytes_positive; [assumption | discriminate]).
    unwrap64.
    replace (offset + Bytes seg - 1 <? 0) with false
      by (symmetry; apply Z.ltb_ge; lia).
    replace (offset + Bytes seg - 1
             >=? offset + (Bytes seg + totalBytes (seg' :: rest')) - 1)
      with false by (symmetry; rewrite Z.geb_leb; apply Z.leb_gt; lia).
    replace (offset + (Bytes seg + totalBytes (seg' :: rest')) - 1)
      with (offset + Bytes seg + totalBytes (seg' :: rest') - 1) by lia.
    rewrite IH; try assumption; try discriminate; try lia.
    + rewrite <- app_assoc. reflexivity.
    + intro H. destruct pieces; discriminate.
    + rewrite Int64Facts.max_int_val. lia.
Qed.

(** Piece by piece, the assembler appends the content of each segment. *)
Lemma fetchLoop_whole (segs : list Segment) (exs : list (string * list string)) :
  Forall2 serves segs exs ->
  positive segs ->
  forall (c : NNTPClient) (w : list byte) (rest : list rx),
    closed c = false -> werr c = None ->
    incoming c = session exs ++ rest ->
    exists lg,
      fetchLoop (map whole segs) w c
      = (mkClient false None rest lg,
         (w ++ List.concat (map (fun ex => content (snd ex)) exs), None)).
Proof.
  induction 1 as [|seg ex segs exs Hserve Hall IH];
    intros Hpos c w rest Hcl Hw Hinc.
  - destruct c as [cl we inc lg]. simpl in *. subst.
    exists lg. rewrite app_nil_r. reflexivity.
  - apply Forall_cons_iff in Hpos. destruct Hpos as [Hseg Hrest].
    destruct Hserve as (Hcode & Hplain & Hsize).
    simpl in Hinc. rewrite <- app_assoc in Hinc.
    destruct (Body_exchange c (ID seg) ex (session exs ++ rest)
                Hcl Hw Hinc Hcode) as [lg Hbody].
    cbn [map fetchLoop]. cbn [whole id]. rewrite Hbody.
    unfold whole at 1.
    rewrite (lineLoop_whole (ID seg) (Bytes seg) (snd ex) 0 w Hplain);
      [| lia | lia | lia].
    destruct (IH Hrest (mkClient false None (session exs ++ rest) lg)
                (w ++ content (snd ex)) rest eq_refl eq_refl eq_refl)
      as [lg' Hloop].
    exists lg'. rewrite Hloop. simpl. rewrite <- app_assoc. reflexivity.
Qed.

(** What the code does achieve of C1: when every declared size is the
    decoded size of its segment, the size of the file is their sum, and no
    payload line starts with two dots once the transport reader has
    returned it, the full range of the file is written as the
    concatenation of the segments' decoded contents. *)
Lemma fetch_range_whole_file (file : File) (exs : list (string * list string)) :
  positive (Segments file) ->
  Segments file <> [] ->
  SizeNum file = totalBytes (Segments file) ->
  totalBytes (Segments file) <= Int64.max_int ->
  Forall2 serves (Segments file) exs ->
  snd (fetch_range file 0 0 (connected (session exs)))
  = (List.concat (map (fun ex => content (snd ex)) exs), None).
Proof.
  intros Hpos Hne Hsize Hmax Hserve.
  pose proof (totalBytes_positive _ Hpos Hne) as Htot.
  assert (Hsz : Int64.in_range (SizeNum file)).
  { unfold Int64.in_range. rewrite Hsize.
    rewrite Int64Facts.min_int_val. split; [lia | exact Hmax]. }
  unfold fetch_range.
  rewrite (GetFacts.checkRange_zero_zero file Hsz) by lia. rewrite Hsize.
  assert (Hplan : plan (Segments file) 0 (totalBytes (Segments file) - 1)
                  = map whole (Segments file)).
  { unfold plan.
    replace (totalBytes (Segments file) - 1)
      with (0 + totalBytes (Segments file) - 1) by lia.
    rewrite planLoop_whole; try assumption; try lia; reflexivity. }
  rewrite Hplan.
  destruct (fetchLoop_whole (Segments file) exs Hserve Hpos
              (connected (session exs)) [] [] eq_refl eq_refl
              (eq_sym (app_nil_r _))) as [lg Hloop].
  rewrite Hloop. reflexivity.
Qed.

(** Two segments of three and two bytes; the first payload line starts
    with one dot, which the sender stuffs and the reader restores. *)
Example fetch_range_whole_file_two_segments :
  let file := mkFile (quote ++ "a.bin" ++ quote ++ " yEnc (1/2)")%string
                [mkSegment 3 1 "<m1>"; mkSegment 2 2 "<m2>"] "a.bin" 5 in
  let exs := [("222 0 <m1> body",
               ["=ybegin part=1 line=128 size=5 name=a.bin";
                "=ypart begin=1 end=3"; ".+,"; "=yend size=3 part=1"]);
              ("222 0 <m2> body", ["-."])] in
  session exs
  = [Line "222 0 <m1> body";
     Line "=ybegin part=1 line=128 size=5 name=a.bin";
     Line "=ypart begin=1 end=3"; Line "..+,"; Line "=yend size=3 part=1";
     Line "."; Line "222 0 <m2> body"; Line "-."; Line "."]
  /\ snd (fetch_range file 0 0 (connected (session exs)))
     = ([x04; x01; x02; x03; x04], None).
Proof.
  intros file exs. split; [reflexivity|].
  assert (Hmarkup : forall l, isMarkup l = true -> plainLine l)
    by (intros l H; left; exact H).
  assert (Hdata : forall l d,
             HasPrefix l ".." = false ->
             YEnc.decodeYEncLine (list_byte_of_string l) = inr d ->
             plainLine l)
    by (intros l d H1 H2; right; split; [exact H1 | exists d; exact H2]).
  rewrite (fetch_range_whole_file file exs).
  - reflexivity.
  - unfold positive, file. simpl.
    repeat apply Forall_cons; try apply Forall_nil;
      simpl; rewrite Int64Facts.max_int_val; lia.
  - discriminate.
  - reflexivity.
  - vm_compute. discriminate.
  - unfold file, exs. simpl Segments.
    repeat apply Forall2_cons; try apply Forall2_nil; unfold serves; simpl.
    + split; [vm_compute; split; [discriminate | reflexivity]|].
      split; [|reflexivity].
      repeat apply Forall_cons; try apply Forall_nil;
        try (apply Hmarkup; reflexivity).
      apply (Hdata _ [x04; x01; x02]); reflexivity.
    + split; [vm_compute; split; [discriminate | reflexivity]|].
      split; [|reflexivity].
      repeat apply Forall_cons; try apply Forall_nil.
      apply (Hdata _ [x03; x04]); reflexivity.
Qed.

End AssemblerFacts.


(** ** RangeAssembler on any accepted range *)

Module RangeFacts.

Import GoStrings NNTP Get Served.
Local Open Scope string_scope.
Local Open Scope list_scope.
Local Open Scope Z_scope.

Lemma pending_chunk (a b sw : Z) (d rest : list byte) :
  0 <= a <= b -> 0 <= sw ->
  sw + Z.of_nat (List.length d) <= b ->
  pending a b sw (d ++ rest)
  = skipn (Z.to_nat (a - sw)) d
    ++ pending a b (sw + Z.of_nat (List.length d)) rest.
Proof.
  intros Hab Hsw Hfit. unfold pending.
  rewrite skipn_app, firstn_app.
  rewrite firstn_all2 by (rewrite length_skipn; lia).
  f_equal. rewrite length_skipn. f_equal; [lia|]. f_equal. lia.
Qed.

Lemma pending_last (a b sw : Z) (d rest : list byte) :
  0 <= a <= b -> 0 <= sw <= b ->
  b < sw + Z.of_nat (List.length d) ->
  pending a b sw (d ++ rest)
  = firstn (Z.to_nat (b - sw + 1 - Z.max 0 (a - sw)))
      (skipn (Z.to_nat (Z.max 0 (a - sw))) d).
Proof.
  intros Hab Hsw Hlast. unfold pending.
  rewrite skipn_app, firstn_app.
  replace (Z.to_nat (b + 1 - Z.max sw a)
           - List.length (skipn (Z.to_nat (a - sw)) d))%nat with 0%nat
    by (rewrite length_skipn; lia).
  rewrite firstn_O, app_nil_r.
  f_equal; [lia|]. f_equal. lia.
Qed.

(** For any piece, the line loop writes the bytes [a] to [b] of the
    content of plain lines, as far as the content goes. *)
Lemma lineLoop_pending (id0 : string) (a b : Z) (lines : list string) :
  forall (segWritten : Z) (w : list byte),
    Forall plainLine lines ->
    0 <= a <= b ->
    0 <= segWritten <= b ->
    b <= Int64.max_int ->
    segWritten + Z.of_nat (List.length (content lines)) <= Int64.max_int ->
    lineLoop (mkPiece id0 a b) lines segWritten w
    = (w ++ pending a b segWritten (content lines), None).
Proof.
  induction lines as [|line rest IH]; intros sw w Hplain Hab Hsw Hb Hmax.
  - unfold pending. simpl. rewrite skipn_nil, firstn_nil, app_nil_r.
    reflexivity.
  - apply Forall_cons_iff in Hplain. destruct Hplain as [Hline Hrest].
    pose proof Hmax as Hmax'. pose proof Hb as Hb'.
    rewrite Int64Facts.max_int_val in Hmax', Hb'.
    rewrite AssemblerFacts.lineLoop_cons, AssemblerFacts.content_cons.
    rewrite AssemblerFacts.content_cons in Hmax, Hmax'.
    destruct (isMarkup line) eqn:Hm.
    { apply IH; assumption. }
    destruct Hline as [Hm' | (Hdots & d & Hd)]; [congruence|].
    rewrite Hdots. cbv zeta. rewrite Hd. rewrite Hd in Hmax, Hmax'.
    rewrite length_app, Nat2Z.inj_add in Hmax, Hmax'.
    destruct (List.length d =? 0)%nat eqn:Hlen.
    { apply Nat.eqb_eq in Hlen.
      destruct d; [|discriminate]. simpl. simpl in Hmax.
      apply IH; assumption. }
    apply Nat.eqb_neq in Hlen.
    cbn [start end_].
    set (k := Z.of_nat (List.length d)) in *.
    assert (Hk : 0 < k) by (unfold k; lia).
    assert (Hstart : (if a >? sw then a -64 sw else 0) = Z.max 0 (a - sw)).
    { destruct (a >? sw) eqn:E; rewrite Z.gtb_ltb in E.
      - apply Z.ltb_lt in E. unwrap64. lia.
      - apply Z.ltb_ge in E. lia. }
    rewrite Hstart.
    destruct (Z_lt_le_dec b (sw + k)) as [Hlast | Hmore].
    + (* the chunk reaches the end of the piece *)
      assert (Hend : (if b <? sw +64 k -64 1 then b -64 sw else k -64 1)
                     = b - sw).
      { unwrap64.
        destruct (b <? sw + k - 1) eqn:E; [reflexivity|].
        apply Z.ltb_ge in E. lia. }
      rewrite Hend. unwrap64.
      replace (Z.max 0 (a - sw) <=? b - sw) with true
        by (symmetry; apply Z.leb_le; lia).
      replace (sw + k >? b) with true
        by (symmetry; rewrite Z.gtb_ltb; apply Z.ltb_lt; lia).
      rewrite (pending_last a b sw d (content rest)) by (fold k; lia).
      unfold slice. reflexivity.
    + (* the piece goes on after the chunk *)
      assert (Hend : (if b <? sw +64 k -64 1 then b -64 sw else k -64 1)
                     = k - 1).
      { unwrap64.
        destruct (b <? sw + k - 1) eqn:E; [|reflexivity].
        apply Z.ltb_lt in E. lia. }
      rewrite Hend. unwrap64.
      replace (sw + k >? b) with false
        by (symmetry; rewrite Z.gtb_ltb; apply Z.ltb_ge; lia).
      rewrite (pending_chunk a b sw d (content rest)) by (fold k; lia).
      fold k.
      assert (Hchunk :
                (if Z.max 0 (a - sw) <=? k - 1
                 then w ++ slice d (Z.max 0 (a - sw)) (k - 1 + 1) else w)
                = w ++ skipn (Z.to_nat (a - sw)) d).
      { destruct (Z.max 0 (a - sw) <=? k - 1) eqn:E.
        - apply Z.leb_le in E. unfold slice. f_equal.
          rewrite firstn_all2 by (rewrite length_skipn; unfold k; lia).
          f_equal. lia.
        - apply Z.leb_gt in E.
          rewrite skipn_all2 by (unfold k in E; lia).
          rewrite app_nil_r. reflexivity. }
      rewrite Hchunk.
      rewrite IH; try assumption; try lia.
      rewrite <- app_assoc. reflexivity.
Qed.

(** One piece whose request the peer serves: its bytes are appended and
    the loop goes on with the next piece, the connection at the next
    answer. *)
Lemma fetchLoop_served (pc : piece) (pcs : list piece)
  (ex : string * list string) (w : list byte) (rest : list rx)
  (lg0 : list event) :
  200 <= parseCode (fst ex) < 300 ->
  Forall plainLine (snd ex) ->
  0 <= start pc <= end_ pc ->
  end_ pc <= Int64.max_int ->
  Z.of_nat (List.length (content (snd ex))) <= Int64.max_int ->
  exists lg,
    fetchLoop (pc :: pcs) w (mkClient false None (exchange ex ++ rest) lg0)
    = fetchLoop pcs
        (w ++ pending (start pc) (end_ pc) 0 (content (snd ex)))
        (mkClient false None rest lg).
Proof.
  intros Hcode Hplain Hwin Hend Hlen.
  destruct (AssemblerFacts.Body_exchange
              (mkClient false None (exchange ex ++ rest) lg0) (id pc) ex rest
              eq_refl eq_refl eq_refl Hcode) as [lg Hbody].
  exists lg. cbn [fetchLoop]. rewrite Hbody.
  destruct pc as [i a b]. cbn [id start end_] in *.
  rewrite (lineLoop_pending i a b (snd ex) 0 w Hplain); try lia.
  reflexivity.
Qed.

Lemma pending_from_start (b : Z) (l : list byte) :
  pending 0 b 0 l = firstn (Z.to_nat (b + 1)) l.
Proof. unfold pending. simpl. f_equal. lia. Qed.

Lemma script_cons (db : string -> string * list string) (p : piece)
  (ps : list piece) :
  script db (p :: ps) = exchange (db (id p)) ++ script db ps.
Proof. reflexivity. Qed.

Lemma takeThrough_cons (e off : Z) (seg : Segment) (segs : list Segment) :
  takeThrough e (layout (seg :: segs) off)
  = if off + Bytes seg - 1 >=? e then [(seg, off)]
    else (seg, off) :: takeThrough e (layout segs (off + Bytes seg)).
Proof. reflexivity. Qed.

Lemma dropBefore_cons (s off : Z) (seg : Segment) (segs : list Segment) :
  dropBefore s (layout (seg :: segs) off)
  = if off + Bytes seg - 1 <? s
    then dropBefore s (layout segs (off + Bytes seg))
    else layout (seg :: segs) off.
Proof. reflexivity. Qed.

Lemma window_last (s e off : Z) (first : bool) (seg : Segment) :
  e <= off + Bytes seg - 1 ->
  window s e first (seg, off)
  = mkPiece (ID seg) (if first then s - off else 0) (e - off).
Proof.
  intro H. unfold window, absEnd. cbn [fst snd].
  replace (off + Bytes seg - 1 >=? e) with true
    by (symmetry; rewrite Z.geb_leb; apply Z.leb_le; lia).
  f_equal. lia.
Qed.

Lemma window_inner (s e off : Z) (first : bool) (seg : Segment) :
  off + Bytes seg - 1 < e ->
  window s e first (seg, off)
  = mkPiece (ID seg) (if first then s - off else 0) (Bytes seg - 1).
Proof.
  intro H. unfold window, absEnd. cbn [fst snd].
  replace (off + Bytes seg - 1 >=? e) with false
    by (symmetry; rewrite Z.geb_leb; apply Z.leb_gt; lia).
  reflexivity.
Qed.

Lemma fileContent_cons (db : string -> string * list string)
  (seg : Segment) (segs : list Segment) :
  fileContent db (seg :: segs)
  = content (snd (db (ID seg))) ++ fileContent db segs.
Proof. reflexivity. Qed.

Section Phases.

Variable db : string -> string * list string.
Variables s e : Z.
Hypothesis Hse : 0 <= s <= e.
Hypothesis He : e <= Int64.max_int.

(** After the first piece: every segment is taken from its first byte, up
    to the one that holds the byte [e]. *)
Lemma fetch_emit (segs : list Segment) :
  forall (off : Z) (w : list byte) (rest : list rx) (lg0 : list event),
    positive segs -> servesAll db segs ->
    0 <= off <= e ->
    off + totalBytes segs <= Int64.max_int ->
    let pieces := map (window s e false) (takeThrough e (layout segs off)) in
    exists lg,
      fetchLoop pieces w (mkClient false None (script db pieces ++ rest) lg0)
      = (mkClient false None rest lg,
         (w ++ firstn (Z.to_nat (e + 1 - off)) (fileContent db segs), None)).
Proof.
  pose proof He as He'. rewrite Int64Facts.max_int_val in He'.
  induction segs as [|seg segs IH];
    intros off w rest lg0 Hpos Hserve Hoff Hmax pieces.
  - exists lg0. unfold pieces. simpl. rewrite firstn_nil, app_nil_r.
    reflexivity.
  - apply Forall_cons_iff in Hpos. destruct Hpos as [Hseg Hpos].
    apply Forall_cons_iff in Hserve.
    destruct Hserve as [(Hcode & Hplain & Hsize) Hserve].
    change (totalBytes (seg :: segs)) with (Bytes seg + totalBytes segs)
      in Hmax.
    assert (Htot : 0 <= totalBytes segs).
    { apply GetFacts.totalBytes_nonneg.
      eapply Forall_impl; [|exact Hpos]. simpl. intros; lia. }
    rewrite Int64Facts.max_int_val in Hmax, Hseg.
    unfold pieces. rewrite takeThrough_cons, fileContent_cons.
    destruct (off + Bytes seg - 1 >=? e) eqn:Hlast; rewrite Z.geb_leb in Hlast.
    + apply Z.leb_le in Hlast.
      cbn [map]. rewrite script_cons. rewrite window_last by lia.
      cbn [id]. change (script db []) with (@nil rx). rewrite app_nil_r.
      destruct (fetchLoop_served (mkPiece (ID seg) 0 (e - off)) []
                  (db (ID seg)) w rest lg0) as [lg Hstep];
        try assumption; cbn [start end_];
        try (rewrite ?Hsize, ?Int64Facts.max_int_val; lia).
      exists lg. cbn [id] in Hstep. rewrite Hstep. cbn [fetchLoop start end_].
      f_equal. f_equal. f_equal.
      rewrite pending_from_start, firstn_app.
      replace (Z.to_nat (e + 1 - off)
               - List.length (content (snd (db (ID seg)))))%nat
        with 0%nat by lia.
      rewrite firstn_O, app_nil_r. f_equal. lia.
    + apply Z.leb_gt in Hlast.
      cbn [map]. rewrite script_cons. rewrite window_inner by lia.
      cbn [id]. rewrite <- app_assoc.
      set (more := map (window s e false)
                     (takeThrough e (layout segs (off + Bytes seg)))).
      destruct (fetchLoop_served (mkPiece (ID seg) 0 (Bytes seg - 1)) more
                  (db (ID seg)) w (script db more ++ rest) lg0)
        as [lg Hstep];
        try assumption; cbn [start end_];
        try (rewrite ?Hsize, ?Int64Facts.max_int_val; lia).
      cbn [id] in Hstep. rewrite Hstep. cbn [start end_].
      destruct (IH (off + Bytes seg)
                  (w ++ pending 0 (Bytes seg - 1) 0
                          (content (snd (db (ID seg)))))
                  rest lg Hpos Hserve) as [lg' Hloop];
        try (rewrite ?Int64Facts.max_int_val; lia).
      exists lg'. fold more in Hloop. rewrite Hloop. f_equal. f_equal.
      rewrite <- app_assoc. f_equal.
      rewrite pending_from_start, firstn_app.
      rewrite !(firstn_all2 (content (snd (db (ID seg))))) by lia.
      f_equal. f_equal. lia.
Qed.

(** Up to the first piece: the segments that end before the byte [s] are
    not requested; the first one that does not is taken from [s] on. *)
Lemma fetch_skip (segs : list Segment) :
  forall (off : Z) (w : list byte) (rest : list rx) (lg0 : list event),
    positive segs -> servesAll db segs ->
    0 <= off <= s ->
    off + totalBytes segs <= Int64.max_int ->
    let pieces :=
      windows s e (takeThrough e (dropBefore s (layout segs off))) in
    exists lg,
      fetchLoop pieces w (mkClient false None (script db pieces ++ rest) lg0)
      = (mkClient false None rest lg,
         (w ++ firstn (Z.to_nat (e + 1 - s))
                 (skipn (Z.to_nat (s - off)) (fileContent db segs)), None)).
Proof.
  pose proof He as He'. rewrite Int64Facts.max_int_val in He'.
  induction segs as [|seg segs IH];
    intros off w rest lg0 Hpos Hserve Hoff Hmax pieces.
  - exists lg0. unfold pieces. simpl.
    rewrite skipn_nil, firstn_nil, app_nil_r. reflexivity.
  - pose proof Hpos as Hpos0. pose proof Hserve as Hserve0.
    apply Forall_cons_iff in Hpos. destruct Hpos as [Hseg Hpos].
    apply Forall_cons_iff in Hserve.
    destruct Hserve as [(Hcode & Hplain & Hsize) Hserve].
    change (totalBytes (seg :: segs)) with (Bytes seg + totalBytes segs)
      in Hmax.
    assert (Htot : 0 <= totalBytes segs).
    { apply GetFacts.totalBytes_nonneg.
      eapply Forall_impl; [|exact Hpos]. simpl. intros; lia. }
    rewrite Int64Facts.max_int_val in Hmax, Hseg.
    unfold pieces. rewrite dropBefore_cons, fileContent_cons.
    destruct (Z.ltb_spec (off + Bytes seg - 1) s) as [Hbefore | Hin].
    + (* the segment is not requested *)
      destruct (IH (off + Bytes seg) w rest lg0 Hpos Hserve) as [lg Hloop];
        try (rewrite ?Int64Facts.max_int_val; lia).
      exists lg. rewrite Hloop. f_equal. f_equal. f_equal. f_equal.
      rewrite skipn_app.
      rewrite (skipn_all2 (content (snd (db (ID seg))))) by lia.
      simpl. f_equal. lia.
    + rewrite takeThrough_cons.
      destruct (off + Bytes seg - 1 >=? e) eqn:Hlast;
        rewrite Z.geb_leb in Hlast.
      * (* the range lies in this segment *)
        apply Z.leb_le in Hlast.
        cbn [windows map]. rewrite script_cons, window_last by lia.
        cbn [id]. change (script db []) with (@nil rx). rewrite app_nil_r.
        destruct (fetchLoop_served (mkPiece (ID seg) (s - off) (e - off)) []
                    (db (ID seg)) w rest lg0) as [lg Hstep];
          try assumption; cbn [start end_];
          try (rewrite ?Hsize, ?Int64Facts.max_int_val; lia).
        exists lg. cbn [id] in Hstep. rewrite Hstep.
        cbn [fetchLoop start end_]. f_equal. f_equal. f_equal.
        unfold pending. rewrite skipn_app, firstn_app.
        replace (Z.to_nat (e + 1 - s)
                 - List.length
                     (skipn (Z.to_nat (s - off))
                        (content (snd (db (ID seg))))))%nat
          with 0%nat by (rewrite length_skipn; lia).
        rewrite firstn_O, app_nil_r. f_equal; [lia|]. f_equal. lia.
      * (* the first piece, to the end of its segment *)
        apply Z.leb_gt in Hlast.
        cbn [windows map]. rewrite script_cons, window_inner by lia.
        cbn [id]. rewrite <- app_assoc.
        set (more := map (window s e false)
                       (takeThrough e (layout segs (off + Bytes seg)))).
        destruct (fetchLoop_served
                    (mkPiece (ID seg) (s - off) (Bytes seg - 1)) more
                    (db (ID seg)) w (script db more ++ rest) lg0)
          as [lg Hstep];
          try assumption; cbn [start end_];
          try (rewrite ?Hsize, ?Int64Facts.max_int_val; lia).
        cbn [id] in Hstep. rewrite Hstep. cbn [start end_].
        destruct (fetch_emit segs (off + Bytes seg)
                    (w ++ pending (s - off) (Bytes seg - 1) 0
                            (content (snd (db (ID seg)))))
                    rest lg Hpos Hserve) as [lg' Hloop];
          try (rewrite ?Int64Facts.max_int_val; lia).
        exists lg'. fold more in Hloop. rewrite Hloop. f_equal. f_equal.
        rewrite <- app_assoc. f_equal.
        unfold pending. rewrite skipn_app, firstn_app.
        rewrite !(firstn_all2
                    (skipn (Z.to_nat (s - off - 0))
                       (content (snd (db (ID seg))))))
          by (rewrite length_skipn; lia).
        replace (Z.to_nat (s - off - 0)) with (Z.to_nat (s - off)) by lia.
        rewrite (firstn_all2
                   (skipn (Z.to_nat (s - off))
                      (content (snd (db (ID seg))))))
          by (rewrite length_skipn; lia).
        f_equal.
        replace (Z.to_nat (s - off)
                 - List.length (content (snd (db (ID seg)))))%nat
          with 0%nat by lia.
        rewrite skipn_O. f_equal. rewrite length_skipn. lia.
Qed.

End Phases.

Lemma length_fileContent (db : string -> string * list string)
  (segs : list Segment) :
  servesAll db segs ->
  Z.of_nat (List.length (fileContent db segs)) = totalBytes segs.
Proof.
  induction 1 as [|seg segs (_ & _ & Hsize) _ IH]; [reflexivity|].
  rewrite fileContent_cons, length_app, Nat2Z.inj_add, Hsize, IH.
  reflexivity.
Qed.

(** The get command on any range it accepts: when every segment is served
    with plain lines that decode to as many bytes as it declares, the sink
    receives the bytes [s] to [e] of the file's content, as far as the
    content goes, and no error; that is [e - s + 1] bytes when [e] is
    inside the content. *)
Theorem fetch_range_writes_range :
  forall (file : File) (db : string -> string * list string)
         (start end_ s e : Z),
    positive (Segments file) ->
    totalBytes (Segments file) <= Int64.max_int ->
    servesAll db (Segments file) ->
    Int64.in_range (SizeNum file) ->
    checkRange file start end_ = inr (s, e) ->
    let out :=
      snd (fetch_range file start end_
             (connected (script db (plan (Segments file) s e)))) in
    out = (slice (fileContent db (Segments file)) s (e + 1), None)
    /\ (e < totalBytes (Segments file) ->
        Z.of_nat (List.length (fst out)) = e - s + 1).
Proof.
  intros file db start end_ s e Hpos Htot Hserve Hsz Hc out.
  destruct (GetFacts.checkRange_cases file start end_) as [[Hc' _] | [Hc' Hr]];
    rewrite Hc' in Hc; [discriminate|].
  injection Hc as <- <-.
  set (e := defaultEnd file end_) in *.
  unfold Int64.in_range in Hsz.
  assert (He : e <= Int64.max_int) by lia.
  assert (Hse : 0 <= start <= e) by lia.
  assert (Hnn : nonneg (Segments file)).
  { eapply Forall_impl; [|exact Hpos]. simpl. intros; lia. }
  assert (Hplan : plan (Segments file) start e
                  = windows start e
                      (takeThrough e
                         (dropBefore start (layout (Segments file) 0)))).
  { unfold plan.
    rewrite (GetFacts.planLoop_skip start e Hse He (Segments file) 0 Hnn)
      by lia.
    reflexivity. }
  assert (Hout : out = (slice (fileContent db (Segments file)) start (e + 1),
                        None)).
  { unfold out, fetch_range. rewrite Hc'. rewrite Hplan.
    destruct (fetch_skip db start e Hse He (Segments file) 0 [] [] []
                Hpos Hserve) as [lg Hloop]; try lia.
    unfold connected. rewrite app_nil_r in Hloop. rewrite Hloop.
    cbn [snd]. unfold slice. simpl app.
    replace (start - 0) with start by lia. reflexivity. }
  split; [exact Hout|].
  intro Hin. rewrite Hout. cbn [fst]. unfold slice.
  pose proof (length_fileContent db (Segments file) Hserve) as Hlen.
  rewrite length_firstn, length_skipn. lia.
Qed.

(** The theorem on two segments of three and two bytes and the request
    of the bytes 1 to 3. *)
Lemma fetch_range_writes_range_witness :
  let file := mkFile "" [mkSegment 3 1 "<m1>"; mkSegment 2 2 "<m2>"]
                "a.bin" 5 in
  let db := fun id : string =>
              if String.eqb id "<m1>" then ("222 0 <m1> body", [".+,"])
              else ("222 0 <m2> body", ["-."]) in
  snd (fetch_range file 1 3 (connected (script db (plan (Segments file) 1 3))))
  = ([x01; x02; x03], None).
Proof.
  intros file db.
  assert (Hpos : positive (Segments file)).
  { unfold positive, file. simpl.
    repeat apply Forall_cons; try apply Forall_nil;
      simpl; rewrite Int64Facts.max_int_val; lia. }
  assert (Htot : totalBytes (Segments file) <= Int64.max_int)
    by (vm_compute; discriminate).
  assert (Hplain : forall l d,
             HasPrefix l ".." = false ->
             YEnc.decodeYEncLine (list_byte_of_string l) = inr d ->
             plainLine l)
    by (intros l d H1 H2; right; split; [exact H1 | exists d; exact H2]).
  assert (Hserve : servesAll db (Segments file)).
  { unfold servesAll, file. simpl.
    repeat apply Forall_cons; try apply Forall_nil; unfold serves; simpl.
    - split; [vm_compute; split; [discriminate | reflexivity]|].
      split; [|reflexivity].
      repeat apply Forall_cons; try apply Forall_nil.
      apply (Hplain _ [x04; x01; x02]); reflexivity.
    - split; [vm_compute; split; [discriminate | reflexivity]|].
      split; [|reflexivity].
      repeat apply Forall_cons; try apply Forall_nil.
      apply (Hplain _ [x03; x04]); reflexivity. }
  assert (Hsz : Int64.in_range (SizeNum file)).
  { unfold Int64.in_range.
    rewrite Int64Facts.min_int_val, Int64Facts.max_int_val. simpl. lia. }
  destruct (fetch_range_writes_range file db 1 3 1 3 Hpos Htot Hserve Hsz
              eq_refl) as [Hout _].
  rewrite Hout. vm_compute. reflexivity.
Defined.

(** One piece alone, whatever size its segment declares: for plain lines
    the line loop appends the bytes [intraStart] to [intraEnd] of the
    decoded content, fewer when the content ends before, and stops without
    an error. *)
Theorem lineLoop_writes_window :
  forall (pc : piece) (lines : list string) (w : list byte),
    Forall plainLine lines ->
    0 <= start pc <= end_ pc ->
    end_ pc <= Int64.max_int ->
    Z.of_nat (List.length (content lines)) <= Int64.max_int ->
    lineLoop pc lines 0 w
    = (w ++ slice (content lines) (start pc) (end_ pc + 1), None).
Proof.
  intros [i a b] lines w Hplain Hwin Hend Hlen. cbn [start end_] in *.
  rewrite (lineLoop_pending i a b lines 0 w Hplain); try lia.
  unfold pending, slice.
  replace (a - 0) with a by lia. replace (Z.max 0 a) with a by lia.
  reflexivity.
Qed.

(** The theorem on a payload of five bytes in two lines and the window 1
    to 3, which spans both. *)
Lemma lineLoop_writes_window_witness :
  lineLoop (mkPiece "<m1>" 1 3)
    ["=ybegin line=3 size=5 name=a.bin"; ".+,"; "-."; "=yend size=5"] 0 []
  = ([x01; x02; x03], None).
Proof.
  rewrite lineLoop_writes_window.
  - vm_compute. reflexivity.
  - repeat apply Forall_cons; try apply Forall_nil;
      try (left; reflexivity).
    + right. split; [reflexivity|]. exists [x04; x01; x02]. reflexivity.
    + right. split; [reflexivity|]. exists [x03; x04]. reflexivity.
  - simpl. lia.
  - vm_compute. discriminate.
  - vm_compute. discriminate.
Defined.

(** *** Articles the server does not deliver *)

Lemma Body_no_payload (c : NNTPClient) (msgid status : string)
  (inc : list rx) :
  closed c = false -> werr c = None ->
  incoming c = Line status :: inc ->
  ~ (200 <= parseCode status < 300) ->
  Body msgid c
  = (mkClient false None inc
       (log c ++ [Sent ("BODY " ++ msgid)%string; Recv status]),
     inr []).
Proof.
  intros Hcl Hw Hinc Hcode. unfold Body, bind.
  rewrite (NNTPFacts.Request_open c "BODY" msgid status inc Hcl Hw Hinc).
  cbv zeta.
  replace ((200 <=? parseCode status) && (parseCode status <? 300))
    with false; [reflexivity|].
  symmetry. apply andb_false_iff.
  destruct (Z.leb_spec 200 (parseCode status)); [|left; reflexivity].
  right. apply Z.ltb_ge. lia.
Qed.

(** A server that refuses every article (430, or any status outside 2xx):
    the retrieval requests every piece, writes nothing and reports no
    error. *)
Theorem fetchLoop_refused :
  forall (pieces : list piece) (statuses : list string) (w : list byte)
         (rest : list rx) (lg0 : list event),
    List.length statuses = List.length pieces ->
    Forall (fun st => ~ (200 <= parseCode st < 300)) statuses ->
    exists lg,
      fetchLoop pieces w
        (mkClient false None (map Line statuses ++ rest) lg0)
      = (mkClient false None rest lg, (w, None))
      /\ List.length (filter (fun ev => match ev with
                                        | Sent _ => true
                                        | _ => false
                                        end) lg)
         = (List.length (filter (fun ev => match ev with
                                           | Sent _ => true
                                           | _ => false
                                           end) lg0)
            + List.length pieces)%nat.
Proof.
  induction pieces as [|pc pieces IH];
    intros statuses w rest lg0 Hlen Hall.
  - destruct statuses; [|discriminate]. exists lg0. simpl.
    split; [reflexivity | lia].
  - destruct statuses as [|st statuses]; [discriminate|].
    apply Forall_cons_iff in Hall. destruct Hall as [Hst Hall].
    injection Hlen as Hlen.
    cbn [map app fetchLoop].
    rewrite (Body_no_payload
               (mkClient false None
                  (Line st :: map Line statuses ++ rest) lg0)
               (id pc) st (map Line statuses ++ rest)
               eq_refl eq_refl eq_refl Hst).
    cbn [lineLoop log].
    destruct (IH statuses w rest
                (lg0 ++ [Sent ("BODY " ++ id pc)%string; Recv st])
                Hlen Hall) as (lg & Hloop & Hsent).
    exists lg. split; [exact Hloop|].
    rewrite Hsent, filter_app, length_app. simpl. lia.
Qed.

(** The theorem at two pieces and a server without the articles. *)
Lemma fetchLoop_refused_witness :
  snd (fetchLoop [mkPiece "<m1>" 0 99; mkPiece "<m2>" 0 99] []
         (connected [Line "430 no such article"; Line "430 no such article"]))
  = ([], None).
Proof.
  destruct (fetchLoop_refused
              [mkPiece "<m1>" 0 99; mkPiece "<m2>" 0 99]
              ["430 no such article"; "430 no such article"] [] [] []
              eq_refl) as (lg & Hloop & _).
  - repeat apply Forall_cons; try apply Forall_nil;
      vm_compute; intros [_ H]; discriminate.
  - change (connected [Line "430 no such article";
                       Line "430 no such article"])
      with (mkClient false None
              (map Line ["430 no such article"; "430 no such article"]
               ++ []) []).
    rewrite Hloop. reflexivity.
Defined.

(** A payload that breaks off before its terminating dot (the peer goes
    away, or the read times out): the lines read so far are dropped with
    the error, the piece contributes nothing, and the retrieval goes on
    with the next piece. *)
Theorem fetchLoop_payload_cut_off :
  forall (pc : piece) (pieces : list piece) (w : list byte)
         (status : string) (inc : list rx) (lg0 : list event) (e : ioerr),
    200 <= parseCode status < 300 ->
    snd (dotLoop inc [] []) = Some e ->
    exists rest lg,
      fetchLoop (pc :: pieces) w
        (mkClient false None (Line status :: inc) lg0)
      = fetchLoop pieces w (mkClient false None rest lg).
Proof.
  intros pc pieces w status inc lg0 e Hcode Hcut.
  cbn [fetchLoop]. unfold Body, bind.
  rewrite (NNTPFacts.Request_open
             (mkClient false None (Line status :: inc) lg0)
             "BODY" (id pc) status inc eq_refl eq_refl eq_refl).
  cbv zeta.
  replace ((200 <=? parseCode status) && (parseCode status <? 300))
    with true
    by (symmetry; apply andb_true_iff; split;
        [apply Z.leb_le | apply Z.ltb_lt]; lia).
  change (payloadMethod "BODY") with true. cbn [andb].
  destruct (dotLoop inc [] []) as [[[rest ev] v] err].
  simpl in Hcut. subst err. cbn [lineLoop].
  eexists. eexists. reflexivity.
Qed.

(** The theorem at a payload followed by a timeout. *)
Lemma fetchLoop_payload_cut_off_witness :
  snd (fetchLoop [mkPiece "<m1>" 0 2] []
         (connected [Line "222 0 <m1> body"; Line ".+,";
                     Fail ErrTimeout]))
  = ([], None).
Proof.
  destruct (fetchLoop_payload_cut_off (mkPiece "<m1>" 0 2) [] []
              "222 0 <m1> body" [Line ".+,"; Fail ErrTimeout] []
              ErrTimeout) as (rest & lg & Hloop).
  - vm_compute. split; [discriminate | reflexivity].
  - reflexivity.
  - unfold connected. rewrite Hloop. reflexivity.
Defined.

(** *** What the retrieval never does *)

(** The retrieval does nothing before the validation of the range, and
    after it whatever happens (success, a decoding error, a failed read)
    the deferred [Quit] leaves the connection closed. *)
Theorem fetch_range_closes :
  forall (file : File) (start end_ : Z) (c : NNTPClient),
    (forall err, checkRange file start end_ = inl err ->
                 fetch_range file start end_ c = (c, ([], Some err)))
    /\ (forall s e, checkRange file start end_ = inr (s, e) ->
                    closed (fst (fetch_range file start end_ c)) = true).
Proof.
  intros file start end_ c. split.
  - intros err H. unfold fetch_range. rewrite H. reflexivity.
  - intros s e H. unfold fetch_range. rewrite H.
    destruct (fetchLoop (plan (Segments file) s e) [] c) as [c' out].
    cbn [fst]. rewrite NNTPFacts.Quit_cases.
    destruct (closed c'); reflexivity.
Qed.

(** The theorem at a range past the end of the file, and at a retrieval
    that meets a closed peer. *)
Lemma fetch_range_closes_witness :
  let file := mkFile "" [mkSegment 3 1 "<m1>"] "a.bin" 3 in
  fetch_range file 0 7 (connected [])
  = (connected [], ([], Some (RangeOutOfBounds 0 7 3)))
  /\ closed (fst (fetch_range file 0 2 (connected []))) = true.
Proof.
  intro file.
  destruct (fetch_range_closes file 0 7 (connected [])) as [Hrej _].
  destruct (fetch_range_closes file 0 2 (connected [])) as [_ Hacc].
  split.
  - apply Hrej. reflexivity.
  - apply (Hacc 0 2). reflexivity.
Defined.

Lemma length_list_byte_of_string (l : string) :
  List.length (list_byte_of_string l) = String.length l.
Proof.
  unfold list_byte_of_string. rewrite length_map.
  induction l as [|a l IH]; [reflexivity|].
  simpl. rewrite IH. reflexivity.
Qed.

Lemma decodeLoop_length (line : list byte) : forall out out',
  YEnc.decodeLoop line out = inr out' ->
  (List.length out' <= List.length out + List.length line)%nat.
Proof.
  induction line as [|a|a b l IHl IHbl] using YEncFacts.list_pair_ind;
    intros out out' H.
  - injection H as <-. simpl. lia.
  - simpl in H. destruct (Byte.eqb a YEnc.esc); [discriminate|].
    injection H as <-. rewrite length_app. simpl. lia.
  - rewrite YEncFacts.decodeLoop_step in H.
    destruct (Byte.eqb a YEnc.esc).
    + apply IHl in H. rewrite length_app in H. simpl in *. lia.
    + apply IHbl in H. rewrite length_app in H. simpl in *. lia.
Qed.

Lemma decoded_length (l : string) (d : list byte) :
  YEnc.decodeYEncLine (list_byte_of_string l) = inr d ->
  (List.length d <= String.length l)%nat.
Proof.
  intro H. rewrite <- length_list_byte_of_string.
  destruct (list_byte_of_string l) as [|a r] eqn:E.
  - injection H as <-. simpl. lia.
  - apply (decodeLoop_length (a :: r) [] d) in H. simpl in *. lia.
Qed.

Lemma length_tail (l : string) :
  (String.length (tail l) <= String.length l)%nat.
Proof. destruct l; simpl; lia. Qed.

(** The line loop only appends to the sink, and for one piece never more
    than its window holds, whatever the lines are. *)
Lemma lineLoop_bounded (id0 : string) (a b : Z) (lines : list string) :
  forall (segWritten : Z) (w : list byte),
    0 <= a <= b -> b <= Int64.max_int ->
    0 <= segWritten <= b ->
    segWritten + chars lines <= Int64.max_int ->
    exists added,
      fst (lineLoop (mkPiece id0 a b) lines segWritten w) = w ++ added
      /\ Z.of_nat (List.length added) <= b + 1 - Z.max segWritten a.
Proof.
  induction lines as [|line rest IH]; intros sw w Hab Hb Hsw Hmax.
  - exists []. simpl. rewrite app_nil_r. split; [reflexivity | simpl; lia].
  - change (chars (line :: rest))
      with (Z.of_nat (String.length line) + chars rest) in Hmax.
    assert (Hrest : 0 <= chars rest).
    { clear. induction rest as [|l r IHr]; [simpl; lia|].
      change (chars (l :: r)) with (Z.of_nat (String.length l) + chars r).
      lia. }
    pose proof Hmax as Hmax'. pose proof Hb as Hb'.
    rewrite Int64Facts.max_int_val in Hmax', Hb'.
    rewrite AssemblerFacts.lineLoop_cons.
    destruct (isMarkup line).
    { apply IH; try assumption. lia. }
    cbv zeta.
    set (line' := if HasPrefix line ".." then tail line else line).
    assert (Hline' : (String.length line' <= String.length line)%nat).
    { unfold line'. destruct (HasPrefix line "..");
        [apply length_tail | lia]. }
    destruct (YEnc.decodeYEncLine (list_byte_of_string line')) as [err | d]
      eqn:Hd.
    { exists []. cbn [fst]. rewrite app_nil_r. split; [reflexivity | simpl; lia]. }
    pose proof (decoded_length line' d Hd) as Hdlen.
    destruct (List.length d =? 0)%nat eqn:Hlen.
    { apply IH; try assumption. lia. }
    apply Nat.eqb_neq in Hlen.
    cbn [start end_].
    set (k := Z.of_nat (List.length d)) in *.
    assert (Hk : 0 < k) by (unfold k; lia).
    assert (Hkmax : sw + k <= 9223372036854775807) by (unfold k; lia).
    assert (Hstart : (if a >? sw then a -64 sw else 0) = Z.max 0 (a - sw)).
    { destruct (a >? sw) eqn:E; rewrite Z.gtb_ltb in E.
      - apply Z.ltb_lt in E. unwrap64. lia.
      - apply Z.ltb_ge in E. lia. }
    assert (Hend : (if b <? sw +64 k -64 1 then b -64 sw else k -64 1)
                   = Z.min (k - 1) (b - sw)).
    { unwrap64.
      destruct (b <? sw + k - 1) eqn:E.
      - apply Z.ltb_lt in E. lia.
      - apply Z.ltb_ge in E. lia. }
    rewrite Hstart, Hend. unwrap64.
    set (chunk := if Z.max 0 (a - sw) <=? Z.min (k - 1) (b - sw)
                  then w ++ slice d (Z.max 0 (a - sw))
                              (Z.min (k - 1) (b - sw) + 1)
                  else w).
    assert (Hchunk : exists c1,
               chunk = w ++ c1
               /\ Z.of_nat (List.length c1)
                  <= Z.max 0 (Z.min (k - 1) (b - sw) + 1 - Z.max 0 (a - sw))).
    { unfold chunk.
      destruct (Z.max 0 (a - sw) <=? Z.min (k - 1) (b - sw)) eqn:E.
      - eexists. split; [reflexivity|]. unfold slice.
        rewrite length_firstn. lia.
      - exists []. rewrite app_nil_r. split; [reflexivity | simpl; lia]. }
    destruct Hchunk as (c1 & Hc1 & Hc1len). rewrite Hc1.
    destruct (sw + k >? b) eqn:Hbreak; rewrite Z.gtb_ltb in Hbreak.
    + apply Z.ltb_lt in Hbreak. exists c1. cbn [fst].
      split; [reflexivity | simpl; lia].
    + apply Z.ltb_ge in Hbreak.
      destruct (IH (sw + k) (w ++ c1)) as (added & Hadd & Haddlen);
        try assumption; try lia.
      exists (c1 ++ added). rewrite Hadd, <- app_assoc.
      split; [reflexivity|]. rewrite length_app, Nat2Z.inj_add. lia.
Qed.

Lemma chars_snoc (v : list string) (l : string) :
  chars (v ++ [l]) = chars v + Z.of_nat (String.length l).
Proof.
  induction v as [|x v IH]; simpl.
  - unfold chars. simpl. lia.
  - change (chars (x :: v ++ [l]))
      with (Z.of_nat (String.length x) + chars (v ++ [l])).
    change (chars (x :: v)) with (Z.of_nat (String.length x) + chars v).
    lia.
Qed.

Lemma chars_nonneg (v : list string) : 0 <= chars v.
Proof.
  induction v as [|l r IHr]; [simpl; lia|].
  change (chars (l :: r)) with (Z.of_nat (String.length l) + chars r).
  lia.
Qed.

Lemma volume_nonneg (inc : list rx) : 0 <= volume inc.
Proof.
  induction inc as [|[l|e] inc IH]; simpl; lia.
Qed.

(** Reading a payload hands over no more characters than the peer
    delivered. *)
Lemma dotLoop_volume (inc : list rx) : forall ev v,
  let '(rest, _, v', _) := dotLoop inc ev v in
  volume rest + chars v' <= volume inc + chars v.
Proof.
  induction inc as [|[l|e] inc IH]; intros ev v; cbn [dotLoop].
  - lia.
  - pose proof (volume_nonneg inc) as Hnn.
    change (volume (Line l :: inc))
      with (Z.of_nat (String.length l) + volume inc).
    destruct (HasPrefix l ".").
    + destruct (String.length l =? 1)%nat; [lia|].
      specialize (IH (ev ++ [Recv l]) (v ++ [tail l])).
      destruct (dotLoop inc (ev ++ [Recv l]) (v ++ [tail l]))
        as [[[rest ev'] v'] err].
      rewrite chars_snoc in IH.
      pose proof (length_tail l). lia.
    + specialize (IH (ev ++ [Recv l]) (v ++ [l])).
      destruct (dotLoop inc (ev ++ [Recv l]) (v ++ [l]))
        as [[[rest ev'] v'] err].
      rewrite chars_snoc in IH. lia.
  - change (volume (Fail e :: inc)) with (volume inc). lia.
Qed.

Lemma Body_volume (msgid : string) (c : NNTPClient) :
  let '(c', r) := Body msgid c in
  volume (incoming c')
  + match r with inr lines => chars lines | inl _ => 0 end
  <= volume (incoming c).
Proof.
  destruct c as [cl we inc lg].
  pose proof (volume_nonneg inc) as Hnn.
  destruct we as [e|].
  { cbn. lia. }
  destruct cl.
  { cbn. lia. }
  destruct inc as [|[status|e] inc'].
  - cbn. lia.
  - rewrite (surjective_pairing (Body msgid _)).
    unfold Body, bind.
    rewrite (NNTPFacts.Request_open
               (mkClient false None (Line status :: inc') lg)
               "BODY" msgid status inc' eq_refl eq_refl eq_refl).
    cbv zeta. pose proof (volume_nonneg inc') as Hnn'.
    change (volume (incoming (mkClient false None (Line status :: inc') lg)))
      with (Z.of_nat (String.length status) + volume inc').
    destruct ((200 <=? parseCode status) && (parseCode status <? 300)
              && payloadMethod "BODY").
    + pose proof (dotLoop_volume inc' [] []) as Hdot.
      destruct (dotLoop inc' [] []) as [[[rest ev] v] err].
      change (chars []) with 0 in Hdot.
      pose proof (volume_nonneg rest) as Hr.
      assert (Hv : 0 <= chars v).
      { clear. induction v as [|l r IHr]; [simpl; lia|].
        change (chars (l :: r)) with (Z.of_nat (String.length l) + chars r).
        lia. }
      destruct err; unfold ret; cbn [fst snd incoming];
        change (chars []) with 0; lia.
    + unfold ret. cbn [fst snd incoming]. change (chars []) with 0. lia.
  - cbn. change (volume (Fail e :: inc')) with (volume inc'). lia.
Qed.

Lemma planned_nonneg (pieces : list piece) :
  wellFormed pieces -> 0 <= planned pieces.
Proof.
  induction 1 as [|p pieces [Hp _] _ IH]; [simpl; lia|].
  change (planned (p :: pieces))
    with (end_ p - start p + 1 + planned pieces). lia.
Qed.

(** Piece by piece the sink only grows, and by no more than the plan asks
    for, whatever the peer sends. *)
Lemma fetchLoop_bounded (pieces : list piece) :
  forall (w : list byte) (c : NNTPClient),
    wellFormed pieces ->
    volume (incoming c) <= Int64.max_int ->
    exists added,
      fst (snd (fetchLoop pieces w c)) = w ++ added
      /\ Z.of_nat (List.length added) <= planned pieces.
Proof.
  induction pieces as [|pc pieces IH]; intros w c Hwf Hvol.
  - exists []. simpl. rewrite app_nil_r. split; [reflexivity | lia].
  - pose proof (planned_nonneg _ Hwf) as Hnn.
    apply Forall_cons_iff in Hwf. destruct Hwf as [[Hwin Hend] Hwf].
    pose proof (planned_nonneg _ Hwf) as Hnn'.
    change (planned (pc :: pieces))
      with (end_ pc - start pc + 1 + planned pieces) in *.
    cbn [fetchLoop].
    pose proof (Body_volume (id pc) c) as Hbody.
    destruct (Body (id pc) c) as [c' r].
    pose proof (volume_nonneg (incoming c')) as Hc'.
    destruct r as [err | lines].
    + exists []. rewrite app_nil_r.
      destruct err; cbn [fst snd]; split; try reflexivity; simpl; lia.
    + destruct pc as [i a b]. cbn [id start end_] in *.
      pose proof (chars_nonneg lines) as Hlines.
      destruct (lineLoop_bounded i a b lines 0 w)
        as (added & Hadd & Hlen); try assumption; try lia.
      destruct (lineLoop (mkPiece i a b) lines 0 w) as [w' o].
      cbn [fst] in Hadd. subst w'.
      destruct o as [err|].
      * exists added. cbn [fst snd]. split; [reflexivity | lia].
      * destruct (IH (w ++ added) c' Hwf) as (more & Hmore & Hmlen);
          [lia|].
        exists (added ++ more). rewrite Hmore, <- app_assoc.
        split; [reflexivity|]. rewrite length_app, Nat2Z.inj_add. lia.
Qed.

Section PlannedSize.

Variables s e : Z.
Hypothesis Hse : 0 <= s <= e.
Hypothesis He : e <= Int64.max_int.

Lemma emit_planned (segs : list Segment) : forall off : Z,
  positive segs -> 0 <= off <= e ->
  let pieces := map (window s e false) (takeThrough e (layout segs off)) in
  wellFormed pieces /\ planned pieces <= e + 1 - off.
Proof.
  pose proof He as He'. rewrite Int64Facts.max_int_val in He'.
  induction segs as [|seg segs IH]; intros off Hpos Hoff pieces.
  - unfold pieces. simpl. split; [constructor | lia].
  - apply Forall_cons_iff in Hpos. destruct Hpos as [Hseg Hpos].
    rewrite Int64Facts.max_int_val in Hseg.
    unfold pieces. rewrite takeThrough_cons.
    destruct (off + Bytes seg - 1 >=? e) eqn:Hlast; rewrite Z.geb_leb in Hlast.
    + apply Z.leb_le in Hlast. cbn [map]. rewrite window_last by lia.
      split.
      * repeat constructor; cbn [start end_];
          rewrite ?Int64Facts.max_int_val; lia.
      * unfold planned. simpl. lia.
    + apply Z.leb_gt in Hlast. cbn [map]. rewrite window_inner by lia.
      destruct (IH (off + Bytes seg) Hpos) as [Hwf Hsum]; [lia|].
      split.
      * constructor; [|exact Hwf]. cbn [start end_].
        rewrite Int64Facts.max_int_val. lia.
      * change (planned (?p :: ?l)) with (end_ p - start p + 1 + planned l).
        cbn [start end_]. lia.
Qed.

Lemma skip_planned (segs : list Segment) : forall off : Z,
  positive segs -> 0 <= off <= s ->
  let pieces := windows s e (takeThrough e (dropBefore s (layout segs off))) in
  wellFormed pieces /\ planned pieces <= e + 1 - s.
Proof.
  pose proof He as He'. rewrite Int64Facts.max_int_val in He'.
  induction segs as [|seg segs IH]; intros off Hpos Hoff pieces.
  - unfold pieces. simpl. split; [constructor | lia].
  - pose proof Hpos as Hpos0.
    apply Forall_cons_iff in Hpos. destruct Hpos as [Hseg Hpos].
    rewrite Int64Facts.max_int_val in Hseg.
    unfold pieces. rewrite dropBefore_cons.
    destruct (Z.ltb_spec (off + Bytes seg - 1) s) as [Hbefore | Hin].
    + apply IH; [assumption | lia].
    + rewrite takeThrough_cons.
      destruct (off + Bytes seg - 1 >=? e) eqn:Hlast;
        rewrite Z.geb_leb in Hlast.
      * apply Z.leb_le in Hlast. cbn [windows map].
        rewrite window_last by lia. split.
        -- repeat constructor; cbn [start end_];
             rewrite ?Int64Facts.max_int_val; lia.
        -- unfold planned. simpl. lia.
      * apply Z.leb_gt in Hlast. cbn [windows map].
        rewrite window_inner by lia.
        destruct (emit_planned segs (off + Bytes seg) Hpos) as [Hwf Hsum];
          [lia|].
        split.
        -- constructor; [|exact Hwf]. cbn [start end_].
           rewrite Int64Facts.max_int_val. lia.
        -- change (planned (?p :: ?l)) with (end_ p - start p + 1 + planned l).
           cbn [start end_]. lia.
Qed.

End PlannedSize.

(** The get command never writes more than the range it accepted asks for,
    [e - s + 1] bytes, whatever the server sends: payloads longer than
    declared, any status, errors at any point. *)
Theorem fetch_range_never_exceeds :
  forall (file : File) (start end_ s e : Z) (c : NNTPClient),
    positive (Segments file) ->
    totalBytes (Segments file) <= Int64.max_int ->
    Int64.in_range (SizeNum file) ->
    volume (incoming c) <= Int64.max_int ->
    checkRange file start end_ = inr (s, e) ->
    Z.of_nat (List.length (fst (snd (fetch_range file start end_ c))))
    <= e - s + 1.
Proof.
  intros file start end_ s e c Hpos Htot Hsz Hvol Hc.
  destruct (GetFacts.checkRange_cases file start end_) as [[Hc' _] | [Hc' Hr]];
    rewrite Hc' in Hc; [discriminate|].
  injection Hc as <- <-.
  set (e := defaultEnd file end_) in *.
  unfold Int64.in_range in Hsz.
  assert (He : e <= Int64.max_int) by lia.
  assert (Hse : 0 <= start <= e) by lia.
  assert (Hnn : nonneg (Segments file)).
  { eapply Forall_impl; [|exact Hpos]. simpl. intros; lia. }
  assert (Hplan : plan (Segments file) start e
                  = windows start e
                      (takeThrough e
                         (dropBefore start (layout (Segments file) 0)))).
  { unfold plan.
    rewrite (GetFacts.planLoop_skip start e Hse He (Segments file) 0 Hnn)
      by lia.
    reflexivity. }
  destruct (skip_planned start e Hse He (Segments file) 0 Hpos)
    as [Hwf Hsum]; [lia|].
  unfold fetch_range. rewrite Hc', Hplan.
  destruct (fetchLoop_bounded _ [] c Hwf Hvol) as (added & Hadd & Hlen).
  destruct (fetchLoop _ [] c) as [c' out]. cbn [fst snd] in *.
  rewrite Hadd. simpl. lia.
Qed.

(** The theorem at a segment that declares three bytes, a server that
    sends ten for it, and the request of the bytes 1 to 2. *)
Lemma fetch_range_never_exceeds_witness :
  let file := mkFile "" [mkSegment 3 1 "<m1>"] "a.bin" 3 in
  let c := connected [Line "222 0 <m1> body"; Line "+,-./01234"; Line "."] in
  snd (fetch_range file 1 2 c) = ([x02; x03], None)
  /\ Z.of_nat (List.length (fst (snd (fetch_range file 1 2 c)))) <= 2 - 1 + 1.
Proof.
  intros file c. split; [vm_compute; reflexivity|].
  apply (fetch_range_never_exceeds file 1 2 1 2 c).
  - unfold positive, file. simpl.
    repeat apply Forall_cons; try apply Forall_nil;
      simpl; rewrite Int64Facts.max_int_val; lia.
  - vm_compute. discriminate.
  - unfold Int64.in_range.
    rewrite Int64Facts.min_int_val, Int64Facts.max_int_val. simpl. lia.
  - vm_compute. discriminate.
  - reflexivity.
Defined.

End RangeFacts.


(** ** Article submission *)

Module PostFacts.

Import GoStrings NNTP Get Posting.
Local Open Scope string_scope.
Local Open Scope list_scope.

Lemma sent_app (ev1 ev2 : list event) :
  sent (ev1 ++ ev2) = sent ev1 ++ sent ev2.
Proof.
  induction ev1 as [|ev ev1 IH]; [reflexivity|].
  destruct ev; simpl; rewrite IH; reflexivity.
Qed.

Lemma sent_Sent (lines : list string) :
  sent (map Sent lines) = lines.
Proof.
  induction lines as [|l lines IH]; [reflexivity|].
  simpl. rewrite IH. reflexivity.
Qed.

(** On an open connection the sending loop writes every line, stuffed. *)
Lemma sendLines_open (format : string -> string) (lines : list string) :
  forall (inc : list rx) (lg : list event),
    Forall (fun l => format (stuff l) = stuff l) lines ->
    sendLines format lines (mkClient false None inc lg)
    = (mkClient false None inc (lg ++ map Sent (map stuff lines)), inr tt).
Proof.
  induction lines as [|l lines IH]; intros inc lg Hfmt.
  - simpl. rewrite app_nil_r. reflexivity.
  - apply Forall_cons_iff in Hfmt. destruct Hfmt as [Hl Hfmt].
    cbn [sendLines]. fold (stuff l). rewrite Hl.
    unfold pbind, lift, PrintfLine, logged. cbn.
    rewrite (IH inc (lg ++ [Sent (stuff l)]) Hfmt).
    rewrite <- app_assoc. reflexivity.
Qed.

(** [Post] on a server that accepts the submission (340) and stores the
    article (240): the article is sent line by line between POST and the
    terminating dot, dot-stuffed, so that a reader of dot-terminated lines
    gets the lines of the article back, and the message id found in the
    article is returned.  The lines are those [fmt] prints unchanged
    (lines without a percent sign). *)
Theorem Post_delivers_article :
  forall (format : string -> string) (article l340 l240 : string)
         (c : NNTPClient) (rest : list rx),
    closed c = false ->
    werr c = None ->
    incoming c = Line l340 :: Line l240 :: rest ->
    HasPrefix l340 "340" = true ->
    HasPrefix l240 "240" = true ->
    Forall (fun l => format (stuff l) = stuff l) (Split article) ->
    let res := Post format article c in
    let wire := map stuff (Split article) ++ ["."] in
    snd res = inr (messageID (Split article))
    /\ incoming (fst res) = rest
    /\ sent (log (fst res)) = sent (log c) ++ "POST" :: wire
    /\ forall tl, exists ev,
         dotLoop (map Line wire ++ tl) [] [] = (tl, ev, Split article, None).
Proof.
  intros format article l340 l240 c rest Hcl Hw Hinc H340 H240 Hfmt res wire.
  destruct c as [cl we inc lg]. simpl in Hcl, Hw, Hinc. subst cl we inc.
  assert (Hres : res
                 = (mkClient false None rest
                      (lg ++ [Sent "POST"; Recv l340]
                          ++ map Sent (map stuff (Split article))
                          ++ [Sent "."; Recv l240]),
                    inr (messageID (Split article)))).
  { unfold res, Post, pbind, lift at 1 2 3, PrintfLine, flush, ReadLine,
      readLine, logged.
    cbn. rewrite H340. cbn.
    rewrite (sendLines_open format (Split article) _ _ Hfmt).
    unfold lift, PrintfLine, flush, ReadLine, readLine, logged. cbn.
    rewrite H240. cbn. rewrite <- !app_assoc. reflexivity. }
  rewrite Hres. cbn [fst snd incoming log].
  split; [reflexivity|]. split; [reflexivity|]. split.
  - rewrite !sent_app, sent_Sent. simpl. unfold wire. reflexivity.
  - intro tl. unfold wire. rewrite map_app, map_map, <- app_assoc.
    apply AssemblerFacts.dotLoop_stuffed.
Qed.

(** The theorem at an article of three lines, one of them starting with a
    dot. *)
Lemma Post_delivers_article_witness :
  let article :=
    String.concat (String "010"%char EmptyString)
      ["Message-ID: <a@b>"; ".sig"; "text"] in
  sent (log (fst (Post (fun l => l) article
                    (connected [Line "340 send article"; Line "240 ok"]))))
  = ["POST"; "Message-ID: <a@b>"; "..sig"; "text"; "."]
  /\ snd (Post (fun l => l) article
            (connected [Line "340 send article"; Line "240 ok"]))
     = inr "<a@b>".
Proof.
  intro article.
  destruct (Post_delivers_article (fun l => l) article
              "340 send article" "240 ok"
              (connected [Line "340 send article"; Line "240 ok"]) []
              eq_refl eq_refl eq_refl eq_refl eq_refl)
    as (Hres & _ & Hsent & _).
  - apply Forall_forall. intros; reflexivity.
  - split; [rewrite Hsent | rewrite Hres]; reflexivity.
Defined.

(** [Post] on a server that does not answer POST with 340 sends nothing of
    the article and fails with [PostRejected]; on a server that accepts it
    but does not answer the article with 240 the whole article has been
    sent and the call fails with [PostFailed], no message id returned. *)
Theorem Post_errors :
  forall (format : string -> string) (article l1 : string)
         (c : NNTPClient) (rest : list rx),
    closed c = false ->
    werr c = None ->
    incoming c = Line l1 :: rest ->
    (HasPrefix l1 "340" = false ->
     Post format article c
     = (mkClient false None rest (log c ++ [Sent "POST"; Recv l1]),
        inl (PostRejected l1)))
    /\ (HasPrefix l1 "340" = true ->
        Forall (fun l => format (stuff l) = stuff l) (Split article) ->
        forall l2 rest',
          rest = Line l2 :: rest' ->
          HasPrefix l2 "240" = false ->
          snd (Post format article c) = inl (PostFailed l2)
          /\ sent (log (fst (Post format article c)))
             = sent (log c)
               ++ "POST" :: map stuff (Split article) ++ ["."]).
Proof.
  intros format article l1 c rest Hcl Hw Hinc.
  destruct c as [cl we inc lg]. simpl in Hcl, Hw, Hinc. subst cl we inc.
  split.
  - intro H340.
    unfold Post, pbind, lift, PrintfLine, flush, ReadLine, readLine, logged.
    cbn. rewrite H340. cbn. rewrite <- app_assoc. reflexivity.
  - intros H340 Hfmt l2 rest' -> H240.
    assert (Hres : Post format article
                     (mkClient false None (Line l1 :: Line l2 :: rest') lg)
                   = (mkClient false None rest'
                        (lg ++ [Sent "POST"; Recv l1]
                            ++ map Sent (map stuff (Split article))
                            ++ [Sent "."; Recv l2]),
                      inl (PostFailed l2))).
    { unfold Post, pbind, lift at 1 2 3, PrintfLine, flush, ReadLine,
        readLine, logged.
      cbn. rewrite H340. cbn.
      rewrite (sendLines_open format (Split article) _ _ Hfmt).
      unfold lift, PrintfLine, flush, ReadLine, readLine, logged. cbn.
      rewrite H240. cbn. rewrite <- !app_assoc. reflexivity. }
    rewrite Hres. cbn [fst snd log]. split; [reflexivity|].
    rewrite !sent_app, sent_Sent. reflexivity.
Qed.

(** The theorem at a server that does not allow posting. *)
Lemma Post_errors_witness :
  Post (fun l => l) "text" (connected [Line "440 posting not allowed"])
  = (mkClient false None [] [Sent "POST"; Recv "440 posting not allowed"],
     inl (PostRejected "440 posting not allowed")).
Proof.
  apply (proj1 (Post_errors (fun l => l) "text" "440 posting not allowed"
                  (connected [Line "440 posting not allowed"]) []
                  eq_refl eq_refl eq_refl)).
  reflexivity.
Defined.

End PostFacts.


(** ** More on the line decoder *)

Module YEncMore.

Import YEnc.
Local Open Scope list_scope.

(** The bytes appended so far do not influence the scan. *)
Lemma decodeLoop_acc (line : list byte) : forall out,
  decodeLoop line out
  = match decodeLoop line [] with
    | inr d => inr (out ++ d)
    | inl e => inl e
    end.
Proof.
  induction line as [|a|a b l IHl IHbl] using YEncFacts.list_pair_ind;
    intro out.
  - simpl. rewrite app_nil_r. reflexivity.
  - simpl. destruct (Byte.eqb a esc); reflexivity.
  - rewrite !YEncFacts.decodeLoop_step.
    destruct (Byte.eqb a esc).
    + rewrite (IHl (out ++ [unescape b])), (IHl ([] ++ [unescape b])).
      destruct (decodeLoop l []); [reflexivity|].
      rewrite <- app_assoc. reflexivity.
    + rewrite (IHbl (out ++ [unshift a])), (IHbl ([] ++ [unshift a])).
      destruct (decodeLoop (b :: l) []); [reflexivity|].
      rewrite <- app_assoc. reflexivity.
Qed.

Lemma decodeYEncLine_loop (line : list byte) :
  decodeYEncLine line = decodeLoop line [].
Proof. destruct line; reflexivity. Qed.

(** Decoding goes through concatenation: after a part that decodes, the
    rest of a line is decoded as a line of its own. *)
Theorem decodeYEncLine_app :
  forall (l1 l2 d1 : list byte),
    decodeYEncLine l1 = inr d1 ->
    decodeYEncLine (l1 ++ l2)
    = match decodeYEncLine l2 with
      | inr d2 => inr (d1 ++ d2)
      | inl e => inl e
      end.
Proof.
  intros l1 l2 d1 H. rewrite !decodeYEncLine_loop in *.
  rewrite (YEncFacts.decodeLoop_app l1 l2 [] d1 H).
  apply decodeLoop_acc.
Qed.

(** The theorem at the line [=}*] cut after its escape pair. *)
Lemma decodeYEncLine_app_witness :
  decodeYEncLine ([x3d; x7d] ++ [x2a]) = inr ([x13] ++ [x00]).
Proof.
  rewrite (decodeYEncLine_app [x3d; x7d] [x2a] [x13]); reflexivity.
Defined.

Lemma decodeLoop_sizes (line : list byte) : forall out out',
  decodeLoop line out = inr out' ->
  (2 * List.length out + List.length line <= 2 * List.length out'
   /\ List.length out' <= List.length out + List.length line)%nat.
Proof.
  induction line as [|a|a b l IHl IHbl] using YEncFacts.list_pair_ind;
    intros out out' H.
  - injection H as <-. simpl. lia.
  - simpl in H. destruct (Byte.eqb a esc); [discriminate|].
    injection H as <-. rewrite length_app. simpl. lia.
  - rewrite YEncFacts.decodeLoop_step in H.
    destruct (Byte.eqb a esc).
    + apply IHl in H. rewrite length_app in H. simpl in *. lia.
    + apply IHbl in H. rewrite length_app in H. simpl in *. lia.
Qed.

Lemma decodeLoop_plain (line : list byte) : forall out,
  Forall (fun c => c <> esc) line ->
  decodeLoop line out = inr (out ++ map unshift line).
Proof.
  induction line as [|c line IH]; intros out Hplain.
  - simpl. rewrite app_nil_r. reflexivity.
  - apply Forall_cons_iff in Hplain. destruct Hplain as [Hc Hplain].
    cbn [decodeLoop].
    destruct (Byte.eqb c esc) eqn:E.
    + apply Byte.byte_dec_bl in E. contradiction.
    + rewrite IH by assumption. rewrite <- app_assoc. reflexivity.
Qed.

(** The decoded output is never longer than the line and never shorter
    than half of it, so the buffer of the line's length the decoder
    allocates is enough; a line without escape marker decodes byte for
    byte, each byte shifted back by 42. *)
Theorem decodeYEncLine_sizes :
  forall line d : list byte,
    decodeYEncLine line = inr d ->
    (List.length d <= List.length line <= 2 * List.length d)%nat
    /\ (Forall (fun c => c <> esc) line -> d = map unshift line).
Proof.
  intros line d H. rewrite decodeYEncLine_loop in H. split.
  - apply decodeLoop_sizes in H. simpl in H. lia.
  - intro Hplain. rewrite (decodeLoop_plain line [] Hplain) in H.
    injection H as <-. reflexivity.
Qed.

(** The theorem at the line [*=}], three characters for two bytes. *)
Lemma decodeYEncLine_sizes_witness :
  (List.length [x00; x13] <= List.length [x2a; x3d; x7d]
   <= 2 * List.length [x00; x13])%nat.
Proof.
  exact (proj1 (decodeYEncLine_sizes [x2a; x3d; x7d] [x00; x13] eq_refl)).
Defined.

End YEncMore.


(** ** Configuration lookup and the server checks *)

Module ServersFacts.

Import GoStrings NNTP Servers.
Local Open Scope string_scope.
Local Open Scope list_scope.

Lemma find_first (A : Type) (f : A -> bool) (l : list A) :
  match find f l with
  | Some x =>
      f x = true
      /\ exists pre post,
           l = pre ++ x :: post /\ Forall (fun y => f y = false) pre
  | None => Forall (fun y => f y = false) l
  end.
Proof.
  induction l as [|a l IH]; simpl.
  - constructor.
  - destruct (f a) eqn:Ha.
    + split; [exact Ha|]. exists [], l. split; [reflexivity | constructor].
    + destruct (find f l) as [x|].
      * destruct IH as (Hx & pre & post & -> & Hpre).
        split; [exact Hx|]. exists (a :: pre), post.
        split; [reflexivity | constructor; assumption].
      * constructor; assumption.
Qed.

(** [Config.Server] returns the first server whose name is the one asked
    for, the default name replacing an empty one when there is a default,
    and nothing exactly when no server has that name.  With an empty name
    and no default it is a server without name that is looked for. *)
Theorem Server_first_match :
  forall (cfg : Config) (name : string),
    let wanted :=
      if String.eqb name "" && negb (String.eqb (Default cfg) "")
      then Default cfg else name in
    match Server cfg name with
    | Some srv =>
        Name srv = wanted
        /\ exists pre post,
             Servers cfg = pre ++ srv :: post
             /\ Forall (fun s => Name s <> wanted) pre
    | None => Forall (fun s => Name s <> wanted) (Servers cfg)
    end.
Proof.
  intros cfg name wanted. unfold Server. fold wanted.
  pose proof (find_first _ (fun srv => String.eqb (Name srv) wanted)
                (Servers cfg)) as H.
  assert (Hneq : forall l,
             Forall (fun y => String.eqb (Name y) wanted = false) l ->
             Forall (fun s => Name s <> wanted) l).
  { intros l Hl. eapply Forall_impl; [|exact Hl].
    intros s Hs. apply String.eqb_neq. exact Hs. }
  destruct (find _ (Servers cfg)) as [srv|].
  - destruct H as (Hn & pre & post & Heq & Hpre).
    split; [apply String.eqb_eq; exact Hn|].
    exists pre, post. split; [exact Heq | apply Hneq; exact Hpre].
  - apply Hneq. exact H.
Qed.

(** *** [validateCmd] *)

Lemma validateLoop_ok (check : bool)
  (network : ServerConfig -> option (list rx)) (servers : list ServerConfig) :
  forall printed ok,
    validateLoop check network servers printed ok
    = (printed ++ map (fun s => fst (fst (validateServer check network s)))
                    servers,
       ok && forallb (kept check network) servers).
Proof.
  induction servers as [|s servers IH]; intros printed ok.
  - simpl. rewrite app_nil_r, andb_true_r. reflexivity.
  - cbn [validateLoop map forallb]. unfold kept at 1.
    destruct (validateServer check network s) as [[v keep] conn].
    rewrite IH. cbn [fst snd]. rewrite <- app_assoc.
    f_equal. destruct keep, ok; reflexivity.
Qed.

(** Without [--check], [validateCmd] succeeds exactly when there is a
    server and every server has a host name and a port other than 0;
    nothing is connected to. *)
Theorem validate_configured :
  forall (network : ServerConfig -> option (list rx))
         (servers : list ServerConfig),
    (snd (validate false network servers) = None
     <-> servers <> []
         /\ Forall (fun s => Hostname s <> "" /\ Port s <> 0%Z) servers)
    /\ validate false network [] = ([], Some NoServers)
    /\ Forall (fun s => snd (validateServer false network s) = None) servers.
Proof.
  intros network servers.
  assert (Hkept : forall s,
             kept false network s = true
             <-> Hostname s <> "" /\ Port s <> 0%Z).
  { intro s. unfold kept, validateServer.
    destruct (String.eqb_spec (Hostname s) "") as [Hh | Hh]; simpl.
    - split; [discriminate | intros [H _]; contradiction].
    - destruct (Z.eqb_spec (Port s) 0) as [Hp | Hp]; simpl.
      + split; [discriminate | intros [_ H]; contradiction].
      + split; [intros _; split; assumption | reflexivity]. }
  split; [|split].
  - unfold validate.
    destruct servers as [|s servers].
    { simpl. split; [discriminate | intros [H _]; contradiction]. }
    cbn [List.length Nat.eqb].
    rewrite validateLoop_ok. cbn [snd andb].
    destruct (forallb (kept false network) (s :: servers)) eqn:Hall.
    + split; [|reflexivity]. intros _. split; [discriminate|].
      apply Forall_forall. intros x Hx. apply Hkept.
      rewrite forallb_forall in Hall. apply Hall. exact Hx.
    + split; [discriminate|]. intros [_ Hok]. exfalso.
      assert (forallb (kept false network) (s :: servers) = true).
      { apply forallb_forall. intros x Hx. apply Hkept.
        rewrite Forall_forall in Hok. apply Hok. exact Hx. }
      congruence.
  - reflexivity.
  - apply Forall_forall. intros s _. unfold validateServer.
    destruct (String.eqb (Hostname s) "" || (Port s =? 0)%Z); reflexivity.
Qed.

(** With [--check]: whatever the server answers, a connection that was
    made is closed when the check of the server ends, and the server
    passes only after an accepted greeting and, when it has a user name, an
    accepted authentication. *)
Theorem validateServer_closes :
  forall (network : ServerConfig -> option (list rx)) (s : ServerConfig)
         (v : verdict) (keep : bool) (conn : NNTPClient),
    validateServer true network s = (v, keep, Some conn) ->
    closed conn = true
    /\ (keep = true ->
        v = OkChecked
        /\ exists greeting rest,
             network s = Some (Line greeting :: rest)
             /\ (HasPrefix greeting "200" = true
                 \/ HasPrefix greeting "201" = true)
             /\ (Username s <> "" ->
                 snd (Auth (Username s) (Password s)
                        (mkClient false None rest [Recv greeting]))
                 = inr tt)).
Proof.
  intros network s v keep conn H.
  assert (Hquit : forall c, closed (fst (Quit c)) = true).
  { intro c. rewrite NNTPFacts.Quit_cases. destruct (closed c); reflexivity. }
  unfold validateServer in H.
  destruct (String.eqb (Hostname s) "" || (Port s =? 0)%Z); [discriminate|].
  cbn [negb] in H. unfold DialNNTP in H.
  destruct (network s) as [inc|]; [|discriminate].
  destruct inc as [|[greeting|e] rest]; unfold readLine, connected in H;
    cbn in H.
  - injection H as <- <- <-. split; [reflexivity | discriminate].
  - destruct (negb (HasPrefix greeting "200")
              && negb (HasPrefix greeting "201")) eqn:Hgreet.
    + injection H as <- <- <-. split; [reflexivity | discriminate].
    + assert (Hg : HasPrefix greeting "200" = true
                   \/ HasPrefix greeting "201" = true).
      { apply andb_false_iff in Hgreet.
        destruct Hgreet as [Hg | Hg]; apply negb_false_iff in Hg; auto. }
      destruct (String.eqb_spec (Username s) "") as [Hu | Hu]; cbn [negb] in H.
      * injection H as <- <- <-.
        split; [first [apply Hquit | reflexivity]|].
        intros _. split; [reflexivity|].
        exists greeting, rest. repeat split; [exact Hg | contradiction].
      * destruct (Auth (Username s) (Password s)
                    (mkClient false None rest [Recv greeting]))
          as [client' [err | []]] eqn:Hauth;
          injection H as <- <- <-; split;
          try first [apply Hquit | reflexivity]; try discriminate.
        intros _. split; [reflexivity|].
        exists greeting, rest.
        repeat split; [exact Hg | intros _; rewrite Hauth; reflexivity].
  - injection H as <- <- <-. split; [reflexivity | discriminate].
Qed.

(** The theorem at a server that asks for the password and rejects it. *)
Lemma validateServer_closes_witness :
  let s := mkServer "main" "news.example.com" 119 false "u" "p" 0 in
  let network := fun _ : ServerConfig =>
                   Some [Line "200 ready"; Line "381 password required";
                         Line "481 auth rejected"] in
  fst (validateServer true network s)
  = (AuthError (AuthRejected "481 auth rejected"), false)
  /\ option_map closed (snd (validateServer true network s)) = Some true.
Proof.
  intros s network. split; [reflexivity|].
  destruct (validateServer true network s) as [[v keep] [conn|]] eqn:H;
    [|discriminate].
  destruct (validateServer_closes network s v keep conn H) as [Hc _].
  simpl. rewrite Hc. reflexivity.
Defined.

(** *** [checkCmd] *)

Lemma checkSegments_status (method file : string) (ids : list string) :
  forall (statuses : list string) (printed : list checkOutput)
         (inc : list rx) (lg0 : list event),
    payloadMethod method = false ->
    List.length statuses = List.length ids ->
    exists lg,
      checkSegments method file ids printed
        (mkClient false None (map Line statuses ++ inc) lg0)
      = (mkClient false None inc lg,
         (printed ++ missing file (combine ids statuses), None))
      /\ Posting.sent lg
         = Posting.sent lg0
           ++ map (fun id => (method ++ " " ++ id)%string) ids.
Proof.
  induction ids as [|id ids IH];
    intros statuses printed inc lg0 Hpay Hlen.
  - destruct statuses; [|discriminate]. exists lg0. simpl.
    rewrite !app_nil_r. split; reflexivity.
  - destruct statuses as [|st statuses]; [discriminate|].
    injection Hlen as Hlen.
    cbn [map app checkSegments].
    rewrite (NNTPFacts.Request_open
               (mkClient false None (Line st :: map Line statuses ++ inc) lg0)
               method id st (map Line statuses ++ inc)
               eq_refl eq_refl eq_refl).
    cbv zeta. rewrite Hpay, andb_false_r. cbn [log].
    destruct (IH statuses
                (if (parseCode st =? 430)%Z
                 then printed ++ [Missing id file st] else printed)
                inc
                (lg0 ++ [Sent (method ++ " " ++ id)%string; Recv st])
                Hpay Hlen) as (lg & Hloop & Hsent).
    exists lg. split.
    + rewrite Hloop. unfold missing. cbn [combine flat_map fst snd].
      destruct (parseCode st =? 430)%Z;
        rewrite <- ?app_assoc; reflexivity.
    + rewrite Hsent, PostFacts.sent_app. simpl.
      rewrite <- app_assoc. reflexivity.
Qed.

(** For a method without payload (STAT, the default) and a server that
    answers every request with one status line, the check sends one
    request a segment, in the order of the files and of their segments,
    ends without error with every answer read, and prints as missing
    exactly the segments answered with 430, each under its file. *)
Theorem checkFiles_reports_missing :
  forall (method : string) (files : list (string * list string))
         (statuses : list (list string)) (printed : list checkOutput)
         (inc : list rx) (lg0 : list event),
    payloadMethod method = false ->
    Forall2 (fun f st => List.length st = List.length (snd f))
      files statuses ->
    exists lg,
      checkFiles method files printed
        (mkClient false None (map Line (List.concat statuses) ++ inc) lg0)
      = (mkClient false None inc lg,
         (printed ++ report (combine files statuses), None))
      /\ Posting.sent lg
         = Posting.sent lg0
           ++ map (fun id => (method ++ " " ++ id)%string)
                (flat_map snd files).
Proof.
  intros method files statuses printed inc lg0 Hpay Hall.
  revert printed lg0.
  induction Hall as [|[name ids] st files statuses Hlen Hall IH];
    intros printed lg0.
  - exists lg0. simpl. rewrite !app_nil_r. split; reflexivity.
  - cbn [snd] in Hlen.
    cbn [List.concat checkFiles]. rewrite map_app, <- app_assoc.
    destruct (checkSegments_status method name ids st
                (printed ++ [Checking name])
                (map Line (List.concat statuses) ++ inc) lg0 Hpay Hlen)
      as (lg1 & Hseg & Hsent1).
    rewrite Hseg.
    destruct (IH ((printed ++ [Checking name])
                  ++ missing name (combine ids st) ++ [Checked name])%list
                lg1) as (lg & Hloop & Hsent).
    exists lg. split.
    + rewrite <- !app_assoc in Hloop |- *. rewrite Hloop.
      unfold report. cbn [combine flat_map fst snd].
      change (Checking name :: missing name (combine ids st)
              ++ [Checked name])
        with ([Checking name] ++ missing name (combine ids st)
              ++ [Checked name]).
      rewrite <- !app_assoc. reflexivity.
    + rewrite Hsent, Hsent1. cbn [flat_map snd].
      rewrite map_app, <- app_assoc. reflexivity.
Qed.

(** The theorem at two files, the second segment of the first one
    missing. *)
Lemma checkFiles_reports_missing_witness :
  snd (checkFiles "STAT" [("a.bin", ["m1"; "m2"]); ("b.bin", ["m3"])] []
         (connected [Line "223 m1 ok"; Line "430 no such article";
                     Line "223 m3 ok"]))
  = ([Checking "a.bin"; Missing "m2" "a.bin" "430 no such article";
      Checked "a.bin"; Checking "b.bin"; Checked "b.bin"], None).
Proof.
  destruct (checkFiles_reports_missing "STAT"
              [("a.bin", ["m1"; "m2"]); ("b.bin", ["m3"])]
              [["223 m1 ok"; "430 no such article"]; ["223 m3 ok"]]
              [] [] [] eq_refl) as (lg & Hloop & _).
  { repeat constructor. }
  change (connected [Line "223 m1 ok"; Line "430 no such article";
                     Line "223 m3 ok"])
    with (mkClient false None
            (map Line (List.concat
                         [["223 m1 ok"; "430 no such article"];
                          ["223 m3 ok"]]) ++ []) []).
  rewrite Hloop. reflexivity.
Defined.

End ServersFacts.

(** ** The index page helpers *)

Module HtmlFacts.

Import Html.
Local Open Scope string_scope.

Lemma occurs_app (a : ascii) (s t : string) :
  occurs a (s ++ t) = occurs a s || occurs a t.
Proof.
  induction s as [|b s IH]; [reflexivity|].
  simpl. rewrite IH, orb_assoc. reflexivity.
Qed.

Lemma length_app (s t : string) :
  String.length (s ++ t) = (String.length s + String.length t)%nat.
Proof.
  induction s as [|a s IH]; [reflexivity|]. simpl. rewrite IH. reflexivity.
Qed.

Lemma replaceChar_removes (old : ascii) (new s : string) :
  occurs old new = false -> occurs old (replaceChar old new s) = false.
Proof.
  intro Hnew. induction s as [|a s IH]; [reflexivity|].
  simpl. destruct (Ascii.eqb a old) eqn:E.
  - rewrite occurs_app, Hnew, IH. reflexivity.
  - simpl. rewrite IH, Ascii.eqb_sym, E. reflexivity.
Qed.

Lemma replaceChar_keeps_absent (a old : ascii) (new s : string) :
  occurs a new = false -> occurs a s = false ->
  occurs a (replaceChar old new s) = false.
Proof.
  intros Hnew. induction s as [|b s IH]; intro Hs; [reflexivity|].
  simpl in Hs. apply orb_false_iff in Hs. destruct Hs as [Hb Hs].
  simpl. destruct (Ascii.eqb b old).
  - rewrite occurs_app, Hnew, IH by assumption. reflexivity.
  - simpl. rewrite Hb, IH by assumption. reflexivity.
Qed.

Lemma replaceChar_absent (old : ascii) (new s : string) :
  occurs old s = false -> replaceChar old new s = s.
Proof.
  induction s as [|a s IH]; intro Hs; [reflexivity|].
  simpl in Hs. apply orb_false_iff in Hs. destruct Hs as [Ha Hs].
  simpl. rewrite Ascii.eqb_sym, Ha, IH by assumption. reflexivity.
Qed.

(** [urlSafe] leaves neither a space nor a slash in a name; it does not
    escape the percent sign it introduces, so applying it twice changes
    nothing more and a name cannot be told from its escaped form. *)
Theorem urlSafe_clean :
  forall s : string,
    occurs " " (urlSafe s) = false
    /\ occurs "/" (urlSafe s) = false
    /\ urlSafe (urlSafe s) = urlSafe s.
Proof.
  intro s.
  assert (H1 : occurs " " (urlSafe s) = false).
  { unfold urlSafe. apply replaceChar_keeps_absent; [reflexivity|].
    apply replaceChar_removes. reflexivity. }
  assert (H2 : occurs "/" (urlSafe s) = false).
  { unfold urlSafe. apply replaceChar_removes. reflexivity. }
  split; [exact H1|]. split; [exact H2|].
  unfold urlSafe at 1.
  rewrite (replaceChar_absent " " "%20" (urlSafe s) H1).
  apply replaceChar_absent. exact H2.
Qed.

Lemma escapeChar_clean (a b : ascii) :
  b = "<"%char \/ b = ">"%char \/ b = "'"%char \/ b = ascii_of_nat 34 ->
  occurs b (escapeChar a) = false.
Proof.
  intro Hb. unfold escapeChar.
  destruct (Ascii.eqb a "&");
    [destruct Hb as [-> | [-> | [-> | ->]]]; reflexivity|].
  destruct (Ascii.eqb a "<") eqn:E1;
    [destruct Hb as [-> | [-> | [-> | ->]]]; reflexivity|].
  destruct (Ascii.eqb a ">") eqn:E2;
    [destruct Hb as [-> | [-> | [-> | ->]]]; reflexivity|].
  destruct (Ascii.eqb a "'") eqn:E3;
    [destruct Hb as [-> | [-> | [-> | ->]]]; reflexivity|].
  destruct (Ascii.eqb a (ascii_of_nat 34)) eqn:E4;
    [destruct Hb as [-> | [-> | [-> | ->]]]; reflexivity|].
  simpl. rewrite orb_false_r.
  destruct Hb as [-> | [-> | [-> | ->]]];
    rewrite Ascii.eqb_sym; assumption.
Qed.

(** The output of [escapeXml] holds none of the characters that end or
    open markup or an attribute value, and is at least as long as its
    input. *)
Theorem escapeXml_clean :
  forall s : string,
    occurs "<" (escapeXml s) = false
    /\ occurs ">" (escapeXml s) = false
    /\ occurs "'" (escapeXml s) = false
    /\ occurs (ascii_of_nat 34) (escapeXml s) = false
    /\ (String.length s <= String.length (escapeXml s))%nat.
Proof.
  intro s.
  assert (H : forall b,
             b = "<"%char \/ b = ">"%char \/ b = "'"%char
             \/ b = ascii_of_nat 34 ->
             occurs b (escapeXml s) = false).
  { intros b Hb. induction s as [|a s IH]; [reflexivity|].
    simpl. rewrite occurs_app, (escapeChar_clean a b Hb), IH.
    reflexivity. }
  repeat split; try (apply H; auto).
  clear H. induction s as [|a s IH]; [simpl; lia|].
  simpl. rewrite length_app.
  assert (1 <= String.length (escapeChar a))%nat.
  { unfold escapeChar.
    repeat match goal with
           | |- context [if ?b then _ else _] => destruct b
           end; simpl; lia. }
  lia.
Qed.

End HtmlFacts.

(** ** Servers from an environment file *)

Module EnvFacts.

Import GoStrings Servers EnvConfig.
Local Open Scope string_scope.
Local Open Scope list_scope.

Lemma lookup_In (indexed : list (Z * smap)) (i : Z) (mm : smap) :
  lookup indexed i = Some mm -> In i (map fst indexed).
Proof.
  induction indexed as [|[j m'] r IH]; simpl; [discriminate|].
  destruct (Z.eqb_spec j i) as [-> | Hne]; [left; reflexivity|].
  intro H. right. apply IH. exact H.
Qed.

Lemma collect_length (m : list (string * string)) :
  forall indexed base,
    (List.length (fst (collect m indexed base))
     <= List.length indexed + List.length m)%nat.
Proof.
  induction m as [|[k v] rest IH]; intros indexed base; simpl; [lia|].
  destruct (negb (HasPrefix k "NNTP_")).
  - specialize (IH indexed base). lia.
  - destruct (FindStringSubmatch k) as [[m1 m2]|].
    + destruct (String.eqb m1 "").
      * specialize (IH indexed (set base m2 v)). lia.
      * match goal with
        | |- context [collect rest ?i ?b] => specialize (IH i b)
        end.
        simpl in IH. lia.
    + specialize (IH indexed base). lia.
Qed.

Lemma collect_first (m : list (string * string)) :
  forall indexed base,
    lookup indexed 0 = None ->
    existsb (fun kv => first (fst kv)) m = false ->
    lookup (fst (collect m indexed base)) 0 = None.
Proof.
  induction m as [|[k v] rest IH]; intros indexed base H0 Hm;
    [exact H0|].
  simpl in Hm. apply orb_false_iff in Hm. destruct Hm as [Hk Hm].
  unfold first, index in Hk. simpl.
  destruct (negb (HasPrefix k "NNTP_")); [apply IH; assumption|].
  destruct (FindStringSubmatch k) as [[m1 m2]|]; [|apply IH; assumption].
  destruct (String.eqb m1 ""); [apply IH; assumption|].
  apply IH; [|exact Hm]. simpl. rewrite Hk. exact H0.
Qed.

Lemma serverName_not_empty (i : Z) : serverName i <> "".
Proof. unfold serverName. simpl. discriminate. Qed.

Lemma indexedServer_named (i : Z) (mm : smap) :
  Name (indexedServer i mm) <> "".
Proof.
  unfold indexedServer, setName. cbn [Name].
  destruct (String.eqb_spec (get mm "NAME") "") as [_ | H];
    [apply serverName_not_empty | exact H].
Qed.

Lemma baseServer_named (base : smap) : Name (baseServer base) <> "".
Proof.
  unfold baseServer, setName. cbn [Name].
  destruct (String.eqb_spec (get base "NAME") "") as [_ | H];
    [discriminate | exact H].
Qed.

(** The loop over the indices: it adds the servers of the indices from
    [i] on, as long as there are such, and cannot overflow the index while
    it has steps left. *)
Lemma indexedLoop_run (indexed : list (Z * smap)) :
  forall (fuel : nat) (i : Z) (servers : list ServerConfig),
    0 <= i -> i + Z.of_nat fuel <= Int64.max_int + 1 ->
    exists (n : nat) (added : list ServerConfig),
      indexedLoop indexed fuel i servers = servers ++ added
      /\ List.length added = n
      /\ (n <= fuel)%nat
      /\ (forall j, (j < n)%nat ->
          exists mm,
            lookup indexed (i + Z.of_nat j) = Some mm
            /\ nth_error added j = Some (indexedServer (i + Z.of_nat j) mm))
      /\ ((n < fuel)%nat -> lookup indexed (i + Z.of_nat n) = None).
Proof.
  induction fuel as [|fuel IH]; intros i servers Hi Hfuel.
  - exists 0%nat, []. cbn [indexedLoop]. rewrite app_nil_r.
    refine (conj eq_refl (conj eq_refl (conj _ (conj _ _))));
      [lia | intros j Hj; lia | intros Hlt; lia].
  - cbn [indexedLoop]. destruct (lookup indexed i) as [mm|] eqn:Hlook.
    + assert (Hstep : fuel = 0%nat \/ i +64 1 = i + 1).
      { destruct fuel; [left; reflexivity | right].
        unfold Int64.add. apply Int64Facts.wrap64_small.
        unfold Int64.in_range.
        rewrite Int64Facts.min_int_val, Int64Facts.max_int_val in *. lia. }
      destruct Hstep as [-> | Hstep].
      * exists 1%nat, [indexedServer i mm]. cbn [indexedLoop].
        refine (conj eq_refl (conj eq_refl (conj _ (conj _ _))));
          [lia | | intros Hlt; lia].
        intros j Hj. assert (j = 0%nat) as -> by lia.
        exists mm. rewrite Z.add_0_r. split; [exact Hlook | reflexivity].
      * rewrite Hstep.
        destruct (IH (i + 1) (servers ++ [indexedServer i mm]))
          as (n & added & Hloop & Hlen & Hn & Hadded & Hend); try lia.
        exists (S n), (indexedServer i mm :: added).
        rewrite Hloop, <- app_assoc. cbn [app List.length].
        refine (conj eq_refl (conj _ (conj _ (conj _ _)))); [lia | lia | |].
        -- intros [|j] Hj.
           ++ exists mm. rewrite Z.add_0_r.
              split; [exact Hlook | reflexivity].
           ++ destruct (Hadded j) as (mm' & Hl & Hnth); [lia|].
              exists mm'.
              replace (i + Z.of_nat (S j)) with (i + 1 + Z.of_nat j) by lia.
              split; [exact Hl | exact Hnth].
        -- intro Hlt.
           replace (i + Z.of_nat (S n)) with (i + 1 + Z.of_nat n) by lia.
           apply Hend. lia.
    + exists 0%nat, []. rewrite app_nil_r, Z.add_0_r. cbn [List.length].
      refine (conj eq_refl (conj eq_refl (conj _ (conj _ _))));
        [lia | intros j Hj; lia | intros _; exact Hlook].
Qed.

(** No more indices from 0 on are present than the map has entries. *)
Lemma indices_bounded (indexed : list (Z * smap)) (n : nat) :
  (forall j, (j < n)%nat -> lookup indexed (Z.of_nat j) <> None) ->
  (n <= List.length indexed)%nat.
Proof.
  intro Hall.
  assert (Hn : List.length (map Z.of_nat (seq 0 n)) = n).
  { rewrite length_map. apply length_seq. }
  rewrite <- (length_map fst indexed). rewrite <- Hn at 1.
  apply NoDup_incl_length.
  - apply NoDup_map_NoDup_ForallPairs; [|apply seq_NoDup].
    intros x y _ _ Hxy. lia.
  - intros z Hz. apply in_map_iff in Hz. destruct Hz as (j & <- & Hj).
    apply in_seq in Hj.
    destruct (lookup indexed (Z.of_nat j)) as [mm|] eqn:Hl.
    + exact (lookup_In _ _ _ Hl).
    + exfalso. apply (Hall j); [lia | exact Hl].
Qed.

(** The servers of an environment file are those of the indices 0, 1, ...
    up to the first index that has no key, in this order, each under its
    NAME or as server-i; keys of later indices are dropped, and the keys
    without index make a server only when there is no server of index 0.
    Every server has a name.  The loop over the indices ends at a missing
    index: it never runs as long as the model allows. *)
Theorem configFromEnvMap_servers :
  forall m : list (string * string),
    Z.of_nat (List.length m) <= Int64.max_int ->
    let indexed := fst (collect m [] []) in
    let base := snd (collect m [] []) in
    let servers := Servers (configFromEnvMap m) in
    exists n : nat,
      lookup indexed (Z.of_nat n) = None
      /\ (forall j, (j < n)%nat ->
          exists mm,
            lookup indexed (Z.of_nat j) = Some mm
            /\ nth_error servers j = Some (indexedServer (Z.of_nat j) mm))
      /\ List.length servers
         = (if (n =? 0)%nat && (0 <? List.length base)%nat
            then 1%nat else n)
      /\ (n = 0%nat ->
          servers = if (0 <? List.length base)%nat
                    then [baseServer base] else [])
      /\ Forall (fun s => Name s <> "") servers.
Proof.
  intros m Hm indexed base servers.
  pose proof (collect_length m [] []) as Hlen. fold indexed in Hlen.
  simpl in Hlen.
  destruct (indexedLoop_run indexed (S (List.length indexed)) 0 [])
    as (n & added & Hloop & Hadd & Hn & Hadded & Hend); [lia | lia |].
  cbn [app Z.add] in Hloop, Hadded, Hend.
  assert (Hservers :
            servers
            = if (List.length added =? 0)%nat && (0 <? List.length base)%nat
              then added ++ [baseServer base] else added).
  { unfold servers, configFromEnvMap, indexed, base in *.
    destruct (collect m [] []) as [ix bs]. cbn [fst snd] in *.
    rewrite Hloop. destruct (_ && _); reflexivity. }
  assert (Hnone : lookup indexed (Z.of_nat n) = None).
  { destruct (Nat.eq_dec n (S (List.length indexed))) as [Heq | Hne].
    - exfalso.
      assert (n <= List.length indexed)%nat; [|lia].
      apply indices_bounded. intros j Hj.
      destruct (Hadded j Hj) as (mm & Hl & _). rewrite Hl. discriminate.
    - apply Hend. lia. }
  assert (Hnames : Forall (fun s => Name s <> "") added).
  { apply Forall_forall. intros s Hs.
    destruct (In_nth_error _ _ Hs) as [j Hj].
    assert (Hlt : (j < n)%nat).
    { rewrite <- Hadd. apply nth_error_Some. rewrite Hj. discriminate. }
    destruct (Hadded j Hlt) as (mm & _ & Hnth).
    rewrite Hj in Hnth. injection Hnth as ->. apply indexedServer_named. }
  exists n. rewrite Hservers, Hadd.
  split; [exact Hnone|]. split; [|split; [|split]].
  - intros j Hj. destruct (Hadded j Hj) as (mm & Hl & Hnth).
    exists mm. split; [exact Hl|].
    destruct n; [lia|]. exact Hnth.
  - destruct n; simpl.
    + destruct added; [|discriminate].
      destruct (0 <? List.length base)%nat; reflexivity.
    + exact Hadd.
  - intros ->. destruct added; [|discriminate]. simpl.
    destruct (0 <? List.length base)%nat; reflexivity.
  - destruct ((n =? 0)%nat && (0 <? List.length base)%nat);
      [|exact Hnames].
    apply Forall_app. split; [exact Hnames|].
    constructor; [apply baseServer_named | constructor].
Qed.

(** The theorem at the two servers of the test of the indexed keys, with
    a key of index 3 that is dropped. *)
Lemma configFromEnvMap_servers_witness :
  let m := [("NNTP_1_NAME", "backup"); ("NNTP_0_HOSTNAME", "news.example.com");
            ("NNTP_3_HOSTNAME", "late.example.com"); ("NNTP_0_PORT", "563");
            ("NNTP_1_PORT", "119"); ("NNTP_HOSTNAME", "plain.example.com")] in
  map Name (Servers (configFromEnvMap m)) = ["server-0"; "backup"]
  /\ exists n : nat,
       lookup (fst (collect m [] [])) (Z.of_nat n) = None
       /\ List.length (Servers (configFromEnvMap m))
          = (if (n =? 0)%nat && (0 <? List.length (snd (collect m [] [])))%nat
             then 1%nat else n).
Proof.
  intro m. split; [reflexivity|].
  destruct (configFromEnvMap_servers m) as (n & Hnone & _ & Hlen & _).
  - rewrite Int64Facts.max_int_val. simpl. lia.
  - exists n. split; [exact Hnone | exact Hlen].
Defined.

(** When no key has the index 0, every indexed server is dropped, whatever
    indices the keys have: the configuration has the server of the keys
    without index, or no server at all. *)
Theorem configFromEnvMap_needs_index_zero :
  forall m : list (string * string),
    existsb (fun kv => first (fst kv)) m = false ->
    let base := snd (collect m [] []) in
    Servers (configFromEnvMap m)
    = if (0 <? List.length base)%nat then [baseServer base] else [].
Proof.
  intros m Hm base.
  pose proof (collect_first m [] [] eq_refl Hm) as H0.
  unfold configFromEnvMap, base in *.
  destruct (collect m [] []) as [indexed bs]. cbn [fst snd] in *.
  cbn [indexedLoop]. rewrite H0. cbn [List.length Nat.eqb andb app Servers].
  destruct (0 <? List.length bs)%nat; reflexivity.
Qed.

(** The theorem at the keys of the comment of [configFromEnvMap]. *)
Lemma configFromEnvMap_needs_index_zero_witness :
  Servers (configFromEnvMap [("NNTP_1_HOSTNAME", "news.example.com");
                             ("NNTP_2_HOSTNAME", "news2.example.com")])
  = [].
Proof.
  apply (configFromEnvMap_needs_index_zero
           [("NNTP_1_HOSTNAME", "news.example.com");
            ("NNTP_2_HOSTNAME", "news2.example.com")]).
  reflexivity.
Defined.

End EnvFacts.
